(** * Texas Hold'em hand evaluation and equity simulation

    A shallow embedding of the Go packages [internal/poker] (card model,
    five-card classifier, best-of-seven search, comparator) and of the
    Monte Carlo simulator, with the properties stated for them.

    Conventions of the embedding:
    - Go's [int] and the named integer types [Suit] and [Rank] are [Z].  No
      arithmetic of the program leaves the 64-bit range: ranks are only
      compared, counters are bounded by the number of trials.
    - A Go [map] is a [gmap]; reading a missing key gives the zero value.
      Go visits the entries of a map in an unspecified order; the model
      visits them in the order of [map_to_list], and the lemmas
      [detectFlush_any_order] and [rankGroups_any_order] show that the
      results do not depend on that choice.
    - A Go panic (explicit, or an index out of range) is [None]. *)

From stdpp Require Import gmap strings list sorting.
From Stdlib Require Import ZArith Lia Ascii.

Open Scope Z_scope.

(** ** Card model ([card.go]) *)

Abbreviation Suit := Z.
Abbreviation Rank := Z.

Definition Hearts : Suit := 0.
Definition Diamonds : Suit := 1.
Definition Clubs : Suit := 2.
Definition Spades : Suit := 3.

Definition Two : Rank := 2.
Definition Three : Rank := 3.
Definition Four : Rank := 4.
Definition Five : Rank := 5.
Definition Six : Rank := 6.
Definition Seven : Rank := 7.
Definition Eight : Rank := 8.
Definition Nine : Rank := 9.
Definition Ten : Rank := 10.
Definition Jack : Rank := 11.
Definition Queen : Rank := 12.
Definition King : Rank := 13.
Definition Ace : Rank := 14.

Record Card := mkCard {
  Card_Suit : Suit;
  Card_Rank : Rank;
  Card_Str : string
}.

Global Instance Card_eq_dec : EqDecision Card.
Proof. solve_decision. Defined.

(** [ParseCard]; the three error returns are [None] *)
Definition parseRank (c : Ascii.ascii) : option Rank :=
  if decide (c = "2"%char) then Some Two
  else if decide (c = "3"%char) then Some Three
  else if decide (c = "4"%char) then Some Four
  else if decide (c = "5"%char) then Some Five
  else if decide (c = "6"%char) then Some Six
  else if decide (c = "7"%char) then Some Seven
  else if decide (c = "8"%char) then Some Eight
  else if decide (c = "9"%char) then Some Nine
  else if decide (c = "T"%char) then Some Ten
  else if decide (c = "J"%char) then Some Jack
  else if decide (c = "Q"%char) then Some Queen
  else if decide (c = "K"%char) then Some King
  else if decide (c = "A"%char) then Some Ace
  else None.

Definition parseSuit (c : Ascii.ascii) : option Suit :=
  if decide (c = "H"%char) then Some Hearts
  else if decide (c = "D"%char) then Some Diamonds
  else if decide (c = "C"%char) then Some Clubs
  else if decide (c = "S"%char) then Some Spades
  else None.

Definition ParseCard (s : string) : option Card :=
  match s with
  | String c0 (String c1 EmptyString) =>
      r ← parseRank c1; suit ← parseSuit c0; Some (mkCard suit r s)
  | _ => None
  end.

Definition suitChar (s : Suit) : string :=
  if decide (s = Hearts) then "H"
  else if decide (s = Diamonds) then "D"
  else if decide (s = Clubs) then "C"
  else if decide (s = Spades) then "S"
  else String (Ascii.ascii_of_nat 0) EmptyString.

Definition rankChar (r : Rank) : string :=
  if decide (r = Two) then "2"
  else if decide (r = Three) then "3"
  else if decide (r = Four) then "4"
  else if decide (r = Five) then "5"
  else if decide (r = Six) then "6"
  else if decide (r = Seven) then "7"
  else if decide (r = Eight) then "8"
  else if decide (r = Nine) then "9"
  else if decide (r = Ten) then "T"
  else if decide (r = Jack) then "J"
  else if decide (r = Queen) then "Q"
  else if decide (r = King) then "K"
  else if decide (r = Ace) then "A"
  else String (Ascii.ascii_of_nat 0) EmptyString.

Definition formatCard (s : Suit) (r : Rank) : string :=
  suitChar s +:+ rankChar r.

Definition FullDeck : list Card :=
  let suits := [Hearts; Diamonds; Clubs; Spades] in
  let ranks := [Two; Three; Four; Five; Six; Seven; Eight; Nine; Ten;
                Jack; Queen; King; Ace] in
  s ← suits; r ← ranks; [mkCard s r (formatCard s r)].

(** ** Hand values ([hand_eval.go]) *)

Definition HighCard : Z := 0.
Definition OnePair : Z := 1.
Definition TwoPair : Z := 2.
Definition ThreeOfAKind : Z := 3.
Definition Straight : Z := 4.
Definition Flush : Z := 5.
Definition FullHouse : Z := 6.
Definition FourOfAKind : Z := 7.
Definition StraightFlush : Z := 8.

Record HandValue := mkHandValue {
  Category : Z;
  Kickers : list Rank
}.

(** ** [sort.Slice] on short slices

    For a slice of at most 12 elements the Go library sorts by insertion:
    element [i] is swapped to the left as long as it is [less] than its
    left neighbour.  [sink x done] inserts [x] into the already sorted
    prefix, held in reverse ([done]'s head is the left neighbour). *)

Section SortSlice.
Context {A : Type} (less : A → A → bool).

Fixpoint sink (x : A) (done : list A) : list A :=
  match done with
  | [] => [x]
  | y :: rest => if less x y then y :: sink x rest else x :: y :: rest
  end.

Definition sortSlice (l : list A) : list A :=
  reverse (foldl (λ done x, sink x done) [] l).
End SortSlice.

(** ** The five-card classifier *)

Definition byRankDesc (a b : Card) : bool := Card_Rank b <? Card_Rank a.

(** [count[c.Suit]++] and [counts[c.Rank]++] *)
Definition incr (m : gmap Z Z) (k : Z) : gmap Z Z :=
  <[k := default 0 (m !! k) + 1]> m.

Definition suitCounts (cards : list Card) : gmap Z Z :=
  foldl (λ m c, incr m (Card_Suit c)) ∅ cards.

Fixpoint firstFlushSuit (entries : list (Suit * Z)) : bool * Suit :=
  match entries with
  | [] => (false, Hearts)
  | (s, c) :: rest => if 5 <=? c then (true, s) else firstFlushSuit rest
  end.

Definition detectFlush (cards : list Card) : bool * Suit :=
  firstFlushSuit (map_to_list (suitCounts cards)).

Definition filterBySuit (cards : list Card) (s : Suit) : list Card :=
  filter (λ c, Card_Suit c = s) cards.

Definition seenRanks (cards : list Card) : gmap Z bool :=
  foldl (λ m c, <[Card_Rank c := true]> m) ∅ cards.

Definition seen (m : gmap Z bool) (r : Rank) : bool := default false (m !! r).

(** the inner loop over [offset] = 0..4 *)
Definition runFrom (m : gmap Z bool) (start : Rank) : bool :=
  forallb (λ offset, seen m (start - offset)) [0; 1; 2; 3; 4].

(** the outer loop, [start] running down from [Ace] to [Five] *)
Fixpoint scanStarts (m : gmap Z bool) (starts : list Rank) : bool * Rank :=
  match starts with
  | [] => (false, Two)
  | start :: rest => if runFrom m start then (true, start) else scanStarts m rest
  end.

Definition straightStarts : list Rank :=
  [Ace; King; Queen; Jack; Ten; Nine; Eight; Seven; Six; Five].

Definition detectStraight (cards : list Card) : bool * Rank :=
  let m := seenRanks cards in
  if seen m Ace && seen m Two && seen m Three && seen m Four && seen m Five
  then (true, Five)
  else scanStarts m straightStarts.

Definition ranksOnly (cards : list Card) : list Rank := Card_Rank <$> cards.

(** [ex[r]], for the set [ex] built from the slice [exclude] *)
Definition excluded (exclude : list Rank) (r : Rank) : bool :=
  bool_decide (r ∈ exclude).

Fixpoint highestDifferentRank (cards : list Card) (exclude : list Rank) : Rank :=
  match cards with
  | [] => Two
  | c :: rest =>
      if excluded exclude (Card_Rank c) then highestDifferentRank rest exclude
      else Card_Rank c
  end.

(** The loop shared by [topKickersExcluding] and
    [topThreeKickersExcluding]: collect the ranks not excluded, and stop as
    soon as [n] of them are collected. *)
Fixpoint collectKickers (cards : list Card) (exclude : list Rank)
    (n : nat) (res : list Rank) : list Rank :=
  match cards with
  | [] => res
  | c :: rest =>
      let res' := if excluded exclude (Card_Rank c) then res
                  else res ++ [Card_Rank c] in
      if decide (length res' = n) then res'
      else collectKickers rest exclude n res'
  end.

Definition topKickersExcluding (cards : list Card) (exclude : list Rank)
    (n : nat) : option (Rank * Rank) :=
  let res := collectKickers cards exclude n [] in
  r0 ← res !! 0%nat; r1 ← res !! 1%nat; Some (r0, r1).

Definition topThreeKickersExcluding (cards : list Card) (exclude : list Rank)
    : option (Rank * Rank * Rank) :=
  let res := collectKickers cards exclude 3 [] in
  r0 ← res !! 0%nat; r1 ← res !! 1%nat; r2 ← res !! 2%nat; Some (r0, r1, r2).

Definition rankCounts (cards : list Card) : gmap Z Z :=
  foldl (λ m c, incr m (Card_Rank c)) ∅ cards.

(** count descending, then rank descending *)
Definition byCountThenRank (p q : Rank * Z) : bool :=
  if decide (p.2 = q.2) then q.1 <? p.1 else q.2 <? p.2.

Definition rankGroups (cards : list Card) : list (Rank * Z) :=
  sortSlice byCountThenRank (map_to_list (rankCounts cards)).

(** The classifier once the slice is sorted (everything of [evaluate5] after
    its first statement). *)
Definition classify (cards : list Card) : option HandValue :=
  let '(isFlush, flushSuit) := detectFlush cards in
  let '(isStr, topStr) := detectStraight cards in
  if isFlush then
    let flushCards := filterBySuit cards flushSuit in
    let '(isStrFlush, topStrFlush) := detectStraight flushCards in
    if isStrFlush then Some (mkHandValue StraightFlush [topStrFlush])
    else Some (mkHandValue Flush (ranksOnly flushCards))
  else if isStr then Some (mkHandValue Straight [topStr])
  else
    let ps := rankGroups cards in
    p0 ← ps !! 0%nat;
    if decide (p0.2 = 4) then
      let kicker := highestDifferentRank cards [p0.1] in
      Some (mkHandValue FourOfAKind [p0.1; kicker])
    else if decide (p0.2 = 3 ∧ (1 < length ps)%nat ∧
                    2 ≤ default 0 (snd <$> ps !! 1%nat)) then
      p1 ← ps !! 1%nat;
      Some (mkHandValue FullHouse [p0.1; p1.1])
    else if decide (p0.2 = 3) then
      '(k1, k2) ← topKickersExcluding cards [p0.1] 2;
      Some (mkHandValue ThreeOfAKind [p0.1; k1; k2])
    else if decide (p0.2 = 2 ∧ (1 < length ps)%nat ∧
                    default 0 (snd <$> ps !! 1%nat) = 2) then
      p1 ← ps !! 1%nat;
      let highPair := p0.1 in
      let lowPair := p1.1 in
      let '(highPair, lowPair) :=
        if highPair <? lowPair then (lowPair, highPair)
        else (highPair, lowPair) in
      let kicker := highestDifferentRank cards [highPair; lowPair] in
      Some (mkHandValue TwoPair [highPair; lowPair; kicker])
    else if decide (p0.2 = 2) then
      '(k1, k2, k3) ← topThreeKickersExcluding cards [p0.1];
      Some (mkHandValue OnePair [p0.1; k1; k2; k3])
    else Some (mkHandValue HighCard (ranksOnly cards)).

(** [evaluate5] sorts its argument in place and classifies it.  The first
    component is the hand value returned, the second the contents of the
    argument slice when the function returns. *)
Definition evaluate5_inplace (cards : list Card)
    : option HandValue * list Card :=
  let sorted := sortSlice byRankDesc cards in
  (classify sorted, sorted).

Definition evaluate5 (cards : list Card) : option HandValue :=
  (evaluate5_inplace cards).1.

(** ** The comparator *)

Fixpoint compareKickers (a b : list Rank) : Z :=
  match a, b with
  | x :: a', y :: b' =>
      if y <? x then 1 else if x <? y then -1 else compareKickers a' b'
  | [], [] => 0
  | _ :: _, [] => 1
  | [], _ :: _ => -1
  end.

Definition CompareHandValues (a b : HandValue) : Z :=
  if decide (Category a ≠ Category b) then
    if Category b <? Category a then 1 else -1
  else compareKickers (Kickers a) (Kickers b).

(** ** Best of seven *)

(** The closure [next]: the next 5-combination of 0..6 in lexicographic
    order.  [refill] is the inner loop over [j]; [nextFrom (S i)] is the
    outer loop at position [i]. *)
Fixpoint refill (indexes : list nat) (j : nat) (steps : nat) : list nat :=
  match steps with
  | O => indexes
  | S steps' =>
      refill (<[j := S (indexes !!! (j - 1)%nat)]> indexes) (S j) steps'
  end.

Fixpoint nextFrom (i1 : nat) (indexes : list nat) : option (list nat) :=
  match i1 with
  | O => None
  | S i =>
      if decide (indexes !!! i ≠ (i + 7 - 5)%nat) then
        Some (refill (<[i := S (indexes !!! i)]> indexes) (S i) (5 - S i))
      else nextFrom i indexes
  end.

Definition next (indexes : list nat) : option (list nat) := nextFrom 5 indexes.

Definition pick (cards : list Card) (indexes : list nat) : option (list Card) :=
  mapM (λ i, cards !! i) indexes.

Definition evalCombo (cards : list Card) (indexes : list nat)
    : option HandValue :=
  hand ← pick cards indexes; evaluate5 hand.

(** [if CompareHandValues(hv, best) > 0 { best = hv }] *)
Definition better (best hv : HandValue) : HandValue :=
  if 0 <? CompareHandValues hv best then hv else best.

(** The loop [for next() { ... }].  It has no bound in the source; the
    model runs it on [fuel], and gives [None] if the fuel runs out. *)
Fixpoint bestLoop (fuel : nat) (cards : list Card) (indexes : list nat)
    (best : HandValue) : option HandValue :=
  match fuel with
  | O => None
  | S fuel' =>
      match next indexes with
      | None => Some best
      | Some indexes' =>
          hv ← evalCombo cards indexes';
          bestLoop fuel' cards indexes' (better best hv)
      end
  end.

(** The initial value of [best] in the source is overwritten before it is
    read, and is left out. *)
Definition EvaluateBestHand (cards : list Card) : option HandValue :=
  if decide (length cards ≠ 7%nat) then None
  else
    let indexes := [0; 1; 2; 3; 4]%nat in
    best ← evalCombo cards indexes;
    bestLoop 21 cards indexes best.

(** ** The simulator *)

Record SimulationResult := mkSimulationResult {
  HeroWins : Z;
  VillainWins : Z;
  Ties : Z;
  TrialsRun : Z
}.

(** [math/rand]: a random source is the sequence of raw draws still to
    come (an exhausted sequence keeps giving 0); [Intn n] reduces the next
    draw to the range [0, n), so that every sequence of choices of the
    shuffle is the behaviour of some source. *)
Definition Rng := list nat.

Definition Intn (rng : Rng) (n : nat) : nat * Rng :=
  match rng with
  | [] => (0%nat, [])
  | x :: rng' => ((x `mod` n)%nat, rng')
  end.

(** [tmp[i], tmp[j] = tmp[j], tmp[i]] *)
Definition swapAt (tmp : list Card) (i j : nat) : list Card :=
  match tmp !! i, tmp !! j with
  | Some a, Some b => <[i := b]> (<[j := a]> tmp)
  | _, _ => tmp
  end.

(** [rng.Shuffle]: for [i] from [n-1] down to 1, swap position [i] with a
    random position [j <= i]. *)
Fixpoint shuffleFrom (i : nat) (rng : Rng) (tmp : list Card)
    : list Card * Rng :=
  match i with
  | O => (tmp, rng)
  | S i' =>
      let '(j, rng') := Intn rng (i + 1) in
      shuffleFrom i' rng' (swapAt tmp i j)
  end.

Definition Shuffle (rng : Rng) (tmp : list Card) : list Card * Rng :=
  shuffleFrom (length tmp - 1) rng tmp.

(** the loop completing the board: [toDraw] cards from the front of [tmp] *)
Fixpoint drawBoard (toDraw : nat) (tmp simCommunity : list Card)
    (drawIdx : nat) : option (list Card * nat) :=
  match toDraw with
  | O => Some (simCommunity, drawIdx)
  | S toDraw' =>
      c ← tmp !! drawIdx;
      drawBoard toDraw' tmp (simCommunity ++ [c]) (S drawIdx)
  end.

(** the loop over the opponents; it stops early ([break]) when fewer than
    two cards are left *)
Fixpoint dealOpponents (numOpponents : nat) (tmp simCommunity : list Card)
    (heroBest : HandValue) (drawIdx : nat)
    (villainBetter : bool) (equalCount : Z) : option (bool * Z) :=
  match numOpponents with
  | O => Some (villainBetter, equalCount)
  | S numOpponents' =>
      if decide (length tmp < drawIdx + 2)%nat
      then Some (villainBetter, equalCount)
      else
        c1 ← tmp !! drawIdx;
        c2 ← tmp !! (drawIdx + 1)%nat;
        let oppHole := [c1; c2] in
        let oppSeven := oppHole ++ simCommunity in
        oppBest ← EvaluateBestHand oppSeven;
        let cmp := CompareHandValues oppBest heroBest in
        let '(villainBetter', equalCount') :=
          if 0 <? cmp then (true, equalCount)
          else if cmp =? 0 then (villainBetter, equalCount + 1)
          else (villainBetter, equalCount) in
        dealOpponents numOpponents' tmp simCommunity heroBest
          (drawIdx + 2) villainBetter' equalCount'
  end.

(** The result is [(heroWin, villainWin, tie)] and the random source after
    the trial. *)
Definition simulateOnce (rng : Rng) (heroHole community deck : list Card)
    (numOpponents : Z) : option ((bool * bool * bool) * Rng) :=
  let '(tmp, rng') := Shuffle rng deck in
  let toDraw := 5 - Z.of_nat (length community) in
  '(simCommunity, drawIdx) ← drawBoard (Z.to_nat toDraw) tmp community 0;
  let heroSeven := heroHole ++ simCommunity in
  heroBest ← EvaluateBestHand heroSeven;
  dealt ←
    dealOpponents (Z.to_nat numOpponents) tmp simCommunity heroBest
      drawIdx false 0;
  let '(villainBetter, equalCount) := (dealt : bool * Z) in
  if villainBetter then Some ((false, true, false), rng')
  else if 0 <? equalCount then Some ((false, false, true), rng')
  else Some ((true, false, false), rng').

(** the body of a worker goroutine: [trialsForWorker] trials in sequence *)
Fixpoint workerLoop (trialsForWorker : nat) (rng : Rng)
    (heroHole community filtered : list Card) (numOpponents : Z)
    (local : SimulationResult) : option SimulationResult :=
  match trialsForWorker with
  | O => Some local
  | S trialsForWorker' =>
      trial ← simulateOnce rng heroHole community filtered numOpponents;
      let '((heroWin, villainWin, tie), rng') :=
        (trial : (bool * bool * bool) * Rng) in
      let local1 :=
        if heroWin then
          mkSimulationResult (HeroWins local + 1) (VillainWins local)
            (Ties local) (TrialsRun local)
        else if villainWin then
          mkSimulationResult (HeroWins local) (VillainWins local + 1)
            (Ties local) (TrialsRun local)
        else if tie then
          mkSimulationResult (HeroWins local) (VillainWins local)
            (Ties local + 1) (TrialsRun local)
        else local in
      let local2 :=
        mkSimulationResult (HeroWins local1) (VillainWins local1)
          (Ties local1) (TrialsRun local1 + 1) in
      workerLoop trialsForWorker' rng' heroHole community filtered
        numOpponents local2
  end.

Definition worker (rng : Rng) (heroHole community filtered : list Card)
    (numOpponents : Z) (trialsForWorker : Z) : option SimulationResult :=
  workerLoop (Z.to_nat trialsForWorker) rng heroHole community filtered
    numOpponents (mkSimulationResult 0 0 0 0).

(** the orchestrator's loop over the channel *)
Definition addResult (final r : SimulationResult) : SimulationResult :=
  mkSimulationResult (HeroWins final + HeroWins r)
    (VillainWins final + VillainWins r) (Ties final + Ties r)
    (TrialsRun final + TrialsRun r).

Definition usedCodes (heroHole community : list Card) : gset string :=
  foldl (λ used c, {[Card_Str c]} ∪ used)
    (foldl (λ used c, {[Card_Str c]} ∪ used) ∅ heroHole) community.

(** [workers], and the number of trials given to worker [w]: the quotient,
    plus the remainder for worker 0 *)
Definition workerCount (trials : Z) : Z := if trials <? 4 then trials else 4.

Definition trialsFor (trials : Z) (w : nat) : Z :=
  let workers := workerCount trials in
  let trialsPerWorker := trials `quot` workers in
  let remaining := trials `rem` workers in
  if decide (w = 0%nat) then trialsPerWorker + remaining else trialsPerWorker.

(** [seeds w] is the random source of worker [w] (in the source, seeded
    from the clock).  The workers share no mutable state and their partial
    results are summed, so the model runs them one after the other and sums
    in the order of the workers; [merge_perm] shows that the order in which
    the partial results arrive does not matter.  A panic in a worker ends
    the program. *)
Definition SimulateEquity (seeds : nat → Rng) (heroHole community : list Card)
    (numOpponents trials : Z) : option SimulationResult :=
  if decide (length heroHole ≠ 2%nat) then None
  else if decide (length community ≠ 0%nat ∧ length community ≠ 3%nat ∧
                  length community ≠ 4%nat ∧ length community ≠ 5%nat)
  then None
  else if decide (numOpponents < 1) then None
  else if decide (trials ≤ 0) then Some (mkSimulationResult 0 0 0 0)
  else
    let deck := FullDeck in
    let used := usedCodes heroHole community in
    let filtered := filter (λ c, Card_Str c ∉ used) deck in
    let workers := workerCount trials in
    results ← mapM (λ w : nat,
                 worker (seeds w) heroHole community filtered numOpponents
                   (trialsFor trials w))
               (seq 0 (Z.to_nat workers));
    Some (foldl addResult (mkSimulationResult 0 0 0 0) results).

(** ** Slices in memory

    A slice is the address of its backing array in a store.  [evaluate5]
    sorts in place the array it is given; [evalCombo] builds its five-card
    hand in a newly allocated array. *)

Abbreviation Store := (list (list Card)).

Definition alloc (σ : Store) (elems : list Card) : nat * Store :=
  (length σ, σ ++ [elems]).

Definition evaluate5_at (σ : Store) (cards : nat)
    : option (HandValue * Store) :=
  elems ← σ !! cards;
  let '(result, sorted) := evaluate5_inplace elems in
  hv ← result; Some (hv, <[cards := sorted]> σ).

Definition evalCombo_at (σ : Store) (cards : nat) (indexes : list nat)
    : option (HandValue * Store) :=
  elems ← σ !! cards;
  hand ← pick elems indexes;
  let '(handAddr, σ') := alloc σ hand in
  evaluate5_at σ' handAddr.

Fixpoint bestLoop_at (fuel : nat) (σ : Store) (cards : nat)
    (indexes : list nat) (best : HandValue) : option (HandValue * Store) :=
  match fuel with
  | O => None
  | S fuel' =>
      match next indexes with
      | None => Some (best, σ)
      | Some indexes' =>
          r ← evalCombo_at σ cards indexes';
          bestLoop_at fuel' r.2 cards indexes' (better best r.1)
      end
  end.

Definition EvaluateBestHand_at (σ : Store) (cards : nat)
    : option (HandValue * Store) :=
  elems ← σ !! cards;
  if decide (length elems ≠ 7%nat) then None
  else
    let indexes := [0; 1; 2; 3; 4]%nat in
    r ← evalCombo_at σ cards indexes;
    bestLoop_at 21 r.2 cards indexes r.1.

(** ** The request handlers ([handlers.go])

    A handler is modelled on the request method and the decoded body
    ([None] when the body is not valid JSON for the request type); its
    reply is the status written and, for a success, the value encoded.  *)

(** [%c] of a byte: the UTF-8 encoding of the code point of that value *)
Definition fmtChar (b : Ascii.ascii) : string :=
  let n := N_of_ascii b in
  if (n <? 128)%N then String b EmptyString
  else String (ascii_of_N (192 + n / 64))
         (String (ascii_of_N (128 + n `mod` 64)) EmptyString).

(** [ParseCard] with the text of its errors *)
Definition ParseCardE (s : string) : string + Card :=
  match s with
  | String c0 (String c1 EmptyString) =>
      match parseRank c1 with
      | None => inl ("invalid rank: " +:+ fmtChar c1)
      | Some r =>
          match parseSuit c0 with
          | None => inl ("invalid suit: " +:+ fmtChar c0)
          | Some suit => inr (mkCard suit r s)
          end
      end
  | _ => inl ("invalid card format: " +:+ s)
  end.

(** the closure [parseCards], and the parsing loop of [handleEvaluate]:
    the cards, or the first error *)
Fixpoint parseCards (strs : list string) : string + list Card :=
  match strs with
  | [] => inr []
  | s :: rest =>
      match ParseCardE s with
      | inl err => inl err
      | inr c =>
          match parseCards rest with
          | inl err => inl err
          | inr cs => inr (c :: cs)
          end
      end
  end.

Definition categoryToString (cat : Z) : string :=
  if decide (cat = StraightFlush) then "Straight Flush"
  else if decide (cat = FourOfAKind) then "Four of a Kind"
  else if decide (cat = FullHouse) then "Full House"
  else if decide (cat = Flush) then "Flush"
  else if decide (cat = Straight) then "Straight"
  else if decide (cat = ThreeOfAKind) then "Three of a Kind"
  else if decide (cat = TwoPair) then "Two Pair"
  else if decide (cat = OnePair) then "One Pair"
  else "High Card".

(** the [switch] of [ranksToStrings] *)
Definition rankToString (r : Rank) : string :=
  if decide (r = Two) then "2"
  else if decide (r = Three) then "3"
  else if decide (r = Four) then "4"
  else if decide (r = Five) then "5"
  else if decide (r = Six) then "6"
  else if decide (r = Seven) then "7"
  else if decide (r = Eight) then "8"
  else if decide (r = Nine) then "9"
  else if decide (r = Ten) then "T"
  else if decide (r = Jack) then "J"
  else if decide (r = Queen) then "Q"
  else if decide (r = King) then "K"
  else if decide (r = Ace) then "A"
  else "?".

Definition ranksToStrings (rs : list Rank) : list string :=
  rankToString <$> rs.

Record evaluateRequest := mkEvaluateRequest {
  evaluateRequest_Hole : list string;
  evaluateRequest_Community : list string
}.

Record evaluateResponse := mkEvaluateResponse {
  evaluateResponse_Category : string;
  evaluateResponse_Kickers : list string
}.

Record winnerRequest := mkWinnerRequest {
  winnerRequest_Player1Hole : list string;
  winnerRequest_Player2Hole : list string;
  winnerRequest_Community : list string
}.

Record simulateRequest := mkSimulateRequest {
  simulateRequest_Hole : list string;
  simulateRequest_Community : list string;
  simulateRequest_NumOpponents : Z;
  simulateRequest_Trials : Z
}.

Inductive Reply (A : Type) : Type :=
  | MethodNotAllowed
  | BadRequest (msg : string)
  | StatusOK (body : A).

Arguments MethodNotAllowed {A}.
Arguments BadRequest {A} msg.
Arguments StatusOK {A} body.

Definition handleEvaluate (method : string) (body : option evaluateRequest)
    : option (Reply evaluateResponse) :=
  if decide (method ≠ "POST") then Some MethodNotAllowed
  else
    match body with
    | None => Some (BadRequest "invalid JSON")
    | Some req =>
        let hole := evaluateRequest_Hole req in
        let community := evaluateRequest_Community req in
        if decide (length hole ≠ 2%nat ∨ (5 < length community)%nat)
        then Some (BadRequest "invalid card counts")
        else
          match parseCards (hole ++ community) with
          | inl err => Some (BadRequest ("invalid card: " +:+ err))
          | inr cards =>
              if decide (length cards ≠ (2 + length community)%nat)
              then Some (BadRequest "invalid card count after parse")
              else if decide (length cards ≠ 7%nat)
              then Some (BadRequest
                     "must supply exactly 2 hole cards and 5 community cards")
              else
                hv ← EvaluateBestHand cards;
                Some (StatusOK (mkEvaluateResponse
                                  (categoryToString (Category hv))
                                  (ranksToStrings (Kickers hv))))
          end
    end.

(** the reply body is the field [winner] *)
Definition handleWinner (method : string) (body : option winnerRequest)
    : option (Reply string) :=
  if decide (method ≠ "POST") then Some MethodNotAllowed
  else
    match body with
    | None => Some (BadRequest "invalid JSON")
    | Some req =>
        if decide (length (winnerRequest_Player1Hole req) ≠ 2%nat ∨
                   length (winnerRequest_Player2Hole req) ≠ 2%nat ∨
                   length (winnerRequest_Community req) ≠ 5%nat)
        then Some (BadRequest
               "require 2 hole cards for each player and 5 community cards")
        else
          match parseCards (winnerRequest_Player1Hole req) with
          | inl err => Some (BadRequest ("invalid player1 hole: " +:+ err))
          | inr p1Hole =>
          match parseCards (winnerRequest_Player2Hole req) with
          | inl err => Some (BadRequest ("invalid player2 hole: " +:+ err))
          | inr p2Hole =>
          match parseCards (winnerRequest_Community req) with
          | inl err => Some (BadRequest ("invalid community: " +:+ err))
          | inr community =>
              let p1Seven := p1Hole ++ community in
              let p2Seven := p2Hole ++ community in
              p1Best ← EvaluateBestHand p1Seven;
              p2Best ← EvaluateBestHand p2Seven;
              let cmp := CompareHandValues p1Best p2Best in
              Some (StatusOK (if 0 <? cmp then "player1"
                              else if cmp <? 0 then "player2"
                              else "tie"))
          end end end
    end.

(** Up to the call of [SimulateEquity]: the reply body is its result [res].
    The response of the source holds [TrialsRun] and three percentages,
    floating-point quotients of the tallies of [res] by [TrialsRun], which
    are not modelled. *)
Definition handleSimulate (seeds : nat → Rng) (method : string)
    (body : option simulateRequest) : option (Reply SimulationResult) :=
  if decide (method ≠ "POST") then Some MethodNotAllowed
  else
    match body with
    | None => Some (BadRequest "invalid JSON")
    | Some req =>
        let n := length (simulateRequest_Community req) in
        if decide (length (simulateRequest_Hole req) ≠ 2%nat)
        then Some (BadRequest "hero hole must be 2 cards")
        else if decide (¬ (n = 0 ∨ n = 3 ∨ n = 4 ∨ n = 5)%nat)
        then Some (BadRequest "community must be 0, 3, 4, or 5 cards")
        else if decide (simulateRequest_NumOpponents req < 1)
        then Some (BadRequest "numOpponents must be >= 1")
        else if decide (simulateRequest_Trials req ≤ 0)
        then Some (BadRequest "trials must be > 0")
        else
          match parseCards (simulateRequest_Hole req) with
          | inl err => Some (BadRequest ("invalid hero hole: " +:+ err))
          | inr hole =>
          match parseCards (simulateRequest_Community req) with
          | inl err => Some (BadRequest ("invalid community: " +:+ err))
          | inr community =>
              res ← SimulateEquity seeds hole community
                      (simulateRequest_NumOpponents req)
                      (simulateRequest_Trials req);
              Some (StatusOK res)
          end end
    end.

(** ** Notions used to state the properties *)

(** number of cards whose key ([Card_Suit] or [Card_Rank]) is [k] *)
Definition occurrences (f : Card → Z) (k : Z) (cards : list Card) : nat :=
  length (filter (λ c, f c = k) cards).

(** no card is followed, anywhere later, by a card of higher rank *)
Definition rankDescending (cards : list Card) : Prop :=
  StronglySorted (λ a b, byRankDesc b a = false) cards.

(** the cards whose rank is not excluded *)
Definition kept (exclude : list Rank) (cards : list Card) : list Card :=
  filter (λ c, Card_Rank c ∉ exclude) cards.

(** the rank set of the wheel, and the rank set of a hand *)
Definition wheelRanks : gset Rank := {[Ace; Two; Three; Four; Five]}.

Definition rankSet (cards : list Card) : gset Rank :=
  list_to_set (ranksOnly cards).

(** the index vectors visited by the loop, in order *)
Fixpoint combosFrom (fuel : nat) (indexes : list nat)
    : option (list (list nat)) :=
  match fuel with
  | O => None
  | S fuel' =>
      match next indexes with
      | None => Some []
      | Some indexes' => (indexes' ::.) <$> combosFrom fuel' indexes'
      end
  end.

(** the [k]-element sublists of [l], in lexicographic order of positions *)
Fixpoint combs {A : Type} (k : nat) (l : list A) : list (list A) :=
  match k, l with
  | O, _ => [[]]
  | S _, [] => []
  | S k', x :: l' => ((x ::.) <$> combs k' l') ++ combs k l'
  end.

(** the first of the best values of a list of evaluations *)
Definition bestOf (results : list (option HandValue)) : option HandValue :=
  hvs ← mapM id results;
  match hvs with
  | [] => None
  | hv :: rest => Some (foldl better hv rest)
  end.

(** the two cards of opponent [i], when the first opponent is dealt from
    position [drawIdx] *)
Definition opponentHole (tmp : list Card) (drawIdx i : nat) : list Card :=
  take 2 (drop (drawIdx + 2 * i) tmp).

(** [k] opponents are dealt: all [n] of them, or as many as the cards left
    from position [drawIdx] allow *)
Definition opponentsDealt (tmp : list Card) (drawIdx n k : nat) : Prop :=
  (k ≤ n ∧ drawIdx + 2 * k ≤ length tmp ∧
   (k < n → length tmp < drawIdx + 2 * k + 2))%nat.

(** [oppBest] is the best hand of opponent [i] on [board] *)
Definition oppBestAt (tmp board : list Card) (drawIdx i : nat)
    (oppBest : HandValue) : Prop :=
  EvaluateBestHand (opponentHole tmp drawIdx i ++ board) = Some oppBest.

(** the opponent's value is strictly greater than, or equal to, hero's *)
Definition beatenBy (heroBest oppBest : HandValue) : bool :=
  0 <? CompareHandValues oppBest heroBest.

Definition tiedWith (heroBest oppBest : HandValue) : bool :=
  CompareHandValues oppBest heroBest =? 0.

(** the outcome of a trial, in the words of the specification: villain wins
    if some opponent is strictly better, else a tie if some opponent is
    equal, else hero wins *)
Definition trialOutcome (heroBest : HandValue) (oppBests : list HandValue)
    : bool * bool * bool :=
  if existsb (beatenBy heroBest) oppBests then (false, true, false)
  else if existsb (tiedWith heroBest) oppBests then (false, false, true)
  else (true, false, false).

(** the trials counted as a win for hero, a win for a villain or a tie *)
Definition tallied (r : SimulationResult) : Z :=
  HeroWins r + VillainWins r + Ties r.

(** 0, 3, 4 or 5 community cards *)
Definition validCommunity (community : list Card) : Prop :=
  length community = 0%nat ∨ length community = 3%nat ∨
  length community = 4%nat ∨ length community = 5%nat.

(** A complete board: 45 cards are left for the opponents. *)
Definition knownHero : list Card :=
  [mkCard Hearts Ace "HA"; mkCard Hearts King "HK"].

Definition knownBoard : list Card :=
  [mkCard Hearts Two "H2"; mkCard Diamonds Two "D2"; mkCard Clubs Two "C2";
   mkCard Spades Nine "S9"; mkCard Hearts Five "H5"].

Definition knownDeck : list Card :=
  filter (λ c, Card_Str c ∉ usedCodes knownHero knownBoard) FullDeck.

(** *** Poker hands, by suits and multiplicities of ranks *)

(** the cards are all of one suit *)
Definition sameSuit (cards : list Card) : Prop :=
  ∃ s, Forall (λ c, Card_Suit c = s) cards.

(** how many of the cards have rank [r] *)
Definition times (cards : list Card) (r : Rank) : nat :=
  occurrences Card_Rank r cards.

(** the five ranks from [t - 4] to [t] are all present; the ranks of the
    wheel are all present *)
Definition hasRun (cards : list Card) (t : Rank) : Prop :=
  ∀ offset, 0 ≤ offset ≤ 4 → t - offset ∈ ranksOnly cards.

Definition hasWheel (cards : list Card) : Prop :=
  ∀ r, r ∈ [Ace; Two; Three; Four; Five] → r ∈ ranksOnly cards.

(** [t] is the top rank of a straight: Five for the wheel, else the top of
    a run of five ranks ending between Five and Ace *)
Definition straightTop (cards : list Card) (t : Rank) : Prop :=
  (hasWheel cards ∧ t = Five) ∨ (5 ≤ t ≤ 14 ∧ hasRun cards t).

(** [ks] lists the ranks of the cards from the highest to the lowest *)
Definition descendingRanks (cards : list Card) (ks : list Rank) : Prop :=
  ks ≡ₚ ranksOnly cards ∧ StronglySorted (λ x y : Z, y ≤ x) ks.

(** the standard reading of a five-card hand *)
Inductive pokerHand (cards : list Card) : HandValue → Prop :=
  | ph_straight_flush t :
      sameSuit cards → straightTop cards t →
      pokerHand cards (mkHandValue StraightFlush [t])
  | ph_flush ks :
      sameSuit cards → (∀ t, ¬ straightTop cards t) →
      descendingRanks cards ks →
      pokerHand cards (mkHandValue Flush ks)
  | ph_straight t :
      ¬ sameSuit cards → straightTop cards t →
      pokerHand cards (mkHandValue Straight [t])
  | ph_four_of_a_kind r k :
      ¬ sameSuit cards → (∀ t, ¬ straightTop cards t) →
      times cards r = 4%nat → times cards k = 1%nat →
      pokerHand cards (mkHandValue FourOfAKind [r; k])
  | ph_full_house r r' :
      ¬ sameSuit cards → (∀ t, ¬ straightTop cards t) →
      times cards r = 3%nat → times cards r' = 2%nat →
      pokerHand cards (mkHandValue FullHouse [r; r'])
  | ph_three_of_a_kind r k1 k2 :
      ¬ sameSuit cards → (∀ t, ¬ straightTop cards t) →
      times cards r = 3%nat → times cards k1 = 1%nat →
      times cards k2 = 1%nat → k2 < k1 →
      pokerHand cards (mkHandValue ThreeOfAKind [r; k1; k2])
  | ph_two_pair hi lo k :
      ¬ sameSuit cards → (∀ t, ¬ straightTop cards t) →
      times cards hi = 2%nat → times cards lo = 2%nat → lo < hi →
      times cards k = 1%nat →
      pokerHand cards (mkHandValue TwoPair [hi; lo; k])
  | ph_one_pair r k1 k2 k3 :
      ¬ sameSuit cards → (∀ t, ¬ straightTop cards t) →
      times cards r = 2%nat → times cards k1 = 1%nat →
      times cards k2 = 1%nat → times cards k3 = 1%nat →
      k2 < k1 → k3 < k2 →
      pokerHand cards (mkHandValue OnePair [r; k1; k2; k3])
  | ph_high_card ks :
      ¬ sameSuit cards → (∀ t, ¬ straightTop cards t) →
      (∀ r, (times cards r ≤ 1)%nat) →
      descendingRanks cards ks →
      pokerHand cards (mkHandValue HighCard ks).

(** the entries of [ps] are in order: count descending, then rank
    descending *)
Definition groupLe (p q : Rank * Z) : Prop := byCountThenRank q p = false.

(** the number of kickers of a category *)
Definition kickerCount (cat : Z) : nat :=
  if decide (cat = StraightFlush ∨ cat = Straight) then 1
  else if decide (cat = FourOfAKind ∨ cat = FullHouse) then 2
  else if decide (cat = ThreeOfAKind ∨ cat = TwoPair) then 3
  else if decide (cat = OnePair) then 4
  else 5.

(** the deck [filtered] that [SimulateEquity] hands to its workers *)
Definition remainingDeck (heroHole community : list Card) : list Card :=
  filter (λ c, Card_Str c ∉ usedCodes heroHole community) FullDeck.

(** no tally is negative *)
Definition nonNegative (r : SimulationResult) : Prop :=
  0 ≤ HeroWins r ∧ 0 ≤ VillainWins r ∧ 0 ≤ Ties r ∧ 0 ≤ TrialsRun r.

(** the winner named from the other player's side *)
Definition otherSide (winner : string) : string :=
  if decide (winner = "player1") then "player2"
  else if decide (winner = "player2") then "player1"
  else winner.

(** * Properties *)

(** ** The comparator is a total order *)

Lemma compareKickers_refl (a : list Rank) : compareKickers a a = 0.
Proof.
  induction a as [|x a IH]; simpl; [done|].
  rewrite Z.ltb_irrefl. exact IH.
Qed.

Lemma compareKickers_antisym (a b : list Rank) :
  compareKickers a b = - compareKickers b a.
Proof.
  revert b. induction a as [|x a IH]; intros [|y b]; simpl; try done.
  destruct (Z.ltb_spec y x), (Z.ltb_spec x y); try lia. apply IH.
Qed.

Lemma compareKickers_trans (a b c : list Rank) :
  0 ≤ compareKickers a b → 0 ≤ compareKickers b c → 0 ≤ compareKickers a c.
Proof.
  revert b c. induction a as [|x a IH]; intros [|y b] [|z c]; simpl; try lia.
  destruct (Z.ltb_spec y x), (Z.ltb_spec x y), (Z.ltb_spec z y),
    (Z.ltb_spec y z), (Z.ltb_spec z x), (Z.ltb_spec x z); try lia.
  apply IH.
Qed.

Lemma compareKickers_eq (a b : list Rank) : compareKickers a b = 0 → a = b.
Proof.
  revert b. induction a as [|x a IH]; intros [|y b]; simpl; try done.
  destruct (Z.ltb_spec y x), (Z.ltb_spec x y); try lia.
  intros Hk. f_equal; [lia | by apply IH].
Qed.

Lemma CompareHandValues_refl (a : HandValue) : CompareHandValues a a = 0.
Proof.
  unfold CompareHandValues. case_decide; [done | apply compareKickers_refl].
Qed.

Lemma CompareHandValues_antisym (a b : HandValue) :
  CompareHandValues a b = - CompareHandValues b a.
Proof.
  unfold CompareHandValues. repeat case_decide; try congruence.
  - destruct (Z.ltb_spec (Category b) (Category a)),
      (Z.ltb_spec (Category a) (Category b)); lia.
  - apply compareKickers_antisym.
Qed.

Lemma CompareHandValues_trans (a b c : HandValue) :
  0 ≤ CompareHandValues a b → 0 ≤ CompareHandValues b c →
  0 ≤ CompareHandValues a c.
Proof.
  unfold CompareHandValues. repeat case_decide;
    repeat match goal with
           | |- context [?x <? ?y] => destruct (Z.ltb_spec x y)
           end; try lia.
  apply compareKickers_trans.
Qed.

Lemma CompareHandValues_eq (a b : HandValue) :
  CompareHandValues a b = 0 → a = b.
Proof.
  unfold CompareHandValues. destruct a as [ca ka], b as [cb kb]; simpl.
  case_decide as Hc.
  - destruct (cb <? ca); lia.
  - intros Hk. apply compareKickers_eq in Hk.
    assert (ca = cb) by (destruct (decide (ca = cb)); [done | by destruct Hc]).
    by subst.
Qed.

(** ** Insertion sort: permutation and order *)

Section SortSliceFacts.
Context {A : Type} (less : A → A → bool).

Lemma sink_perm (x : A) (done : list A) : sink less x done ≡ₚ x :: done.
Proof.
  induction done as [|y rest IH]; simpl; [done|].
  destruct (less x y); [|done].
  rewrite IH. apply Permutation_swap.
Qed.

Lemma sortSlice_snoc (l : list A) (x : A) :
  sortSlice less (l ++ [x]) =
  reverse (sink less x (reverse (sortSlice less l))).
Proof. unfold sortSlice. by rewrite foldl_snoc, reverse_involutive. Qed.

Lemma sortSlice_perm (l : list A) : sortSlice less l ≡ₚ l.
Proof.
  induction l as [|x l IH] using rev_ind; [done|].
  rewrite sortSlice_snoc, reverse_Permutation, sink_perm,
    reverse_Permutation, IH.
  by rewrite Permutation_app_comm.
Qed.

Lemma sortSlice_length (l : list A) : length (sortSlice less l) = length l.
Proof. by rewrite sortSlice_perm. Qed.

(** [less] never holds both ways *)
Hypothesis less_asym : ∀ x y, less x y = true → less y x = false.

Lemma sink_sorted (x : A) (done : list A) :
  Sorted (λ a b, less a b = false) done →
  Sorted (λ a b, less a b = false) (sink less x done).
Proof.
  induction 1 as [|y rest Hrest IH Hhd]; simpl.
  { repeat constructor. }
  destruct (less x y) eqn:Hxy.
  - constructor; [done|].
    destruct Hhd as [|z rest' Hyz]; simpl.
    + constructor. by apply less_asym.
    + destruct (less x z); constructor; [done | by apply less_asym].
  - repeat constructor; done.
Qed.

(** In the sorted slice no element is [less] than its left neighbour. *)
Lemma sortSlice_sorted (l : list A) :
  Sorted (λ a b, less b a = false) (sortSlice less l).
Proof.
  unfold sortSlice.
  apply (Sorted_reverse (λ a b, less a b = false)).
  induction l as [|x l IH] using rev_ind; [constructor|].
  rewrite foldl_snoc. by apply sink_sorted.
Qed.
End SortSliceFacts.

(** ** The maps built by the classifier *)

Lemma incr_lookup (m : gmap Z Z) (k k' : Z) :
  incr m k !! k' =
  if decide (k = k') then Some (default 0 (m !! k) + 1) else m !! k'.
Proof. unfold incr. apply lookup_insert. Qed.

Lemma occurrences_snoc f k cards c :
  occurrences f k (cards ++ [c]) =
  (occurrences f k cards + if decide (f c = k) then 1 else 0)%nat.
Proof.
  unfold occurrences. rewrite filter_app, length_app. f_equal.
  rewrite filter_cons, filter_nil. by case_decide.
Qed.

Lemma occurrences_perm f k cards cards' :
  cards ≡ₚ cards' → occurrences f k cards = occurrences f k cards'.
Proof. unfold occurrences. by intros ->. Qed.

Lemma occurrences_le f k cards : (occurrences f k cards ≤ length cards)%nat.
Proof. apply length_filter. Qed.

Lemma occurrences_all f k cards :
  occurrences f k cards = length cards → Forall (λ c, f c = k) cards.
Proof.
  unfold occurrences. intros Hlen. apply Forall_forall. intros c Hc.
  destruct (decide (f c = k)) as [|Hne]; [done|].
  pose proof (length_filter_lt (λ c, f c = k) cards c Hc Hne). lia.
Qed.

Lemma occurrences_pos f k cards :
  (0 < occurrences f k cards)%nat ↔ k ∈ f <$> cards.
Proof.
  unfold occurrences. rewrite list_elem_of_fmap. split.
  - intros Hpos. destruct (filter _ cards) as [|c l] eqn:E; [simpl in *; lia|].
    assert (c ∈ filter (λ c, f c = k) cards) as Hc by (rewrite E; left).
    apply list_elem_of_filter in Hc as [? ?]. eauto.
  - intros (c & -> & Hc).
    assert (c ∈ filter (λ c', f c' = f c) cards) as Hin
      by (by apply list_elem_of_filter).
    destruct (filter _ cards); [inv Hin | simpl; lia].
  Qed.

Lemma countBy_lookup (f : Card → Z) (cards : list Card) (k : Z) :
  foldl (λ m c, incr m (f c)) ∅ cards !! k =
  if decide (occurrences f k cards = 0%nat) then None
  else Some (Z.of_nat (occurrences f k cards)).
Proof.
  induction cards as [|c cards IH] using rev_ind; [done|].
  rewrite foldl_snoc, incr_lookup, occurrences_snoc.
  destruct (decide (f c = k)) as [->|Hne].
  - rewrite IH. repeat case_decide; simpl; try lia; f_equal; lia.
  - rewrite IH, Nat.add_0_r. done.
Qed.

Lemma suitCounts_lookup cards s :
  suitCounts cards !! s =
  if decide (occurrences Card_Suit s cards = 0%nat) then None
  else Some (Z.of_nat (occurrences Card_Suit s cards)).
Proof. apply countBy_lookup. Qed.

Lemma rankCounts_lookup cards r :
  rankCounts cards !! r =
  if decide (occurrences Card_Rank r cards = 0%nat) then None
  else Some (Z.of_nat (occurrences Card_Rank r cards)).
Proof. apply countBy_lookup. Qed.

Lemma suitCounts_perm cards cards' :
  cards ≡ₚ cards' → suitCounts cards = suitCounts cards'.
Proof.
  intros Hp. apply map_eq. intros s.
  by rewrite !suitCounts_lookup, (occurrences_perm _ _ _ _ Hp).
Qed.

Lemma rankCounts_perm cards cards' :
  cards ≡ₚ cards' → rankCounts cards = rankCounts cards'.
Proof.
  intros Hp. apply map_eq. intros s.
  by rewrite !rankCounts_lookup, (occurrences_perm _ _ _ _ Hp).
Qed.

Lemma seenRanks_lookup cards r :
  seenRanks cards !! r =
  if decide (r ∈ ranksOnly cards) then Some true else None.
Proof.
  unfold seenRanks, ranksOnly.
  induction cards as [|c cards IH] using rev_ind.
  { done. }
  rewrite foldl_snoc, lookup_insert, fmap_app, IH. simpl.
  rewrite (decide_ext _ _ _ _ (elem_of_app _ _ r)).
  destruct (decide (Card_Rank c = r)) as [->|Hne].
  - rewrite decide_True; [done | right; left].
  - destruct (decide (r ∈ Card_Rank <$> cards)) as [Hin|Hin].
    + rewrite decide_True; [done | by left].
    + rewrite decide_False; [done|].
      intros [?|Hr%list_elem_of_singleton]; done.
Qed.

Lemma seen_spec cards r :
  seen (seenRanks cards) r = true ↔ r ∈ ranksOnly cards.
Proof.
  unfold seen. rewrite seenRanks_lookup. case_decide; simpl; naive_solver.
Qed.

Lemma seenRanks_perm cards cards' :
  cards ≡ₚ cards' → seenRanks cards = seenRanks cards'.
Proof.
  intros Hp. apply map_eq. intros r. rewrite !seenRanks_lookup.
  unfold ranksOnly. repeat case_decide; try done.
  - rewrite Hp in *. done.
  - rewrite <- Hp in *. done.
Qed.

Lemma detectStraight_perm cards cards' :
  cards ≡ₚ cards' → detectStraight cards = detectStraight cards'.
Proof. intros Hp. unfold detectStraight. by rewrite (seenRanks_perm _ _ Hp). Qed.

Lemma detectFlush_perm cards cards' :
  cards ≡ₚ cards' → detectFlush cards = detectFlush cards'.
Proof. intros Hp. unfold detectFlush. by rewrite (suitCounts_perm _ _ Hp). Qed.

(** ** Flush detection on five cards *)

Lemma firstFlushSuit_true entries s :
  firstFlushSuit entries = (true, s) → ∃ c, (s, c) ∈ entries ∧ 5 ≤ c.
Proof.
  induction entries as [|[s' c'] rest IH]; simpl; [done|].
  destruct (Z.leb_spec 5 c').
  - intros [= <-]. exists c'. split; [left | done].
  - intros (c & Hin & Hc)%IH. exists c. split; [by right | done].
Qed.

Lemma firstFlushSuit_false entries s :
  firstFlushSuit entries = (false, s) →
  s = Hearts ∧ Forall (λ e, e.2 < 5) entries.
Proof.
  induction entries as [|[s' c'] rest IH]; simpl.
  { intros [= <-]. done. }
  destruct (Z.leb_spec 5 c'); [done|].
  intros [-> Hall]%IH. split; [done|]. by constructor.
Qed.

Lemma occurrences_Forall f k cards :
  Forall (λ c, f c = k) cards → occurrences f k cards = length cards.
Proof.
  unfold occurrences. induction 1 as [|c cards Hc _ IH]; [done|].
  rewrite filter_cons_True by done. simpl. by rewrite IH.
Qed.

Lemma detectFlush_true cards s :
  length cards = 5%nat → detectFlush cards = (true, s) →
  Forall (λ c, Card_Suit c = s) cards.
Proof.
  intros Hlen (c & Hin & Hc)%firstFlushSuit_true.
  apply elem_of_map_to_list in Hin. rewrite suitCounts_lookup in Hin.
  case_decide; [done|]. injection Hin as <-.
  apply occurrences_all.
  pose proof (occurrences_le Card_Suit s cards). lia.
Qed.

Lemma detectFlush_one_suit cards s :
  length cards = 5%nat → Forall (λ c, Card_Suit c = s) cards →
  detectFlush cards = (true, s).
Proof.
  intros Hlen Hall.
  assert (suitCounts cards !! s = Some 5) as Hs.
  { rewrite suitCounts_lookup, (occurrences_Forall _ _ _ Hall), Hlen.
    by rewrite decide_False. }
  destruct (detectFlush cards) as [[] s'] eqn:E.
  - apply (detectFlush_true _ _ Hlen) in E.
    destruct cards as [|c cards]; [done|].
    apply Forall_cons_1 in Hall as [<- _]. apply Forall_cons_1 in E as [<- _].
    done.
  - apply firstFlushSuit_false in E as [_ Hlt].
    apply elem_of_map_to_list in Hs.
    rewrite Forall_forall in Hlt. apply Hlt in Hs. simpl in Hs. lia.
Qed.

Lemma detectFlush_mixed cards :
  length cards = 5%nat →
  ¬ (∃ s, Forall (λ c, Card_Suit c = s) cards) →
  ∃ s, detectFlush cards = (false, s).
Proof.
  intros Hlen Hmixed. destruct (detectFlush cards) as [[] s] eqn:E; [|eauto].
  destruct Hmixed. exists s. by apply detectFlush_true.
Qed.

(** ** The wheel *)

Lemma detectStraight_wheel cards :
  rankSet cards = wheelRanks → detectStraight cards = (true, Five).
Proof.
  intros Hset. unfold detectStraight.
  assert (∀ r, r ∈ wheelRanks → seen (seenRanks cards) r = true) as Hseen.
  { intros r Hr. apply seen_spec. rewrite <- Hset in Hr.
    by apply elem_of_list_to_set in Hr. }
  rewrite !Hseen; [done|unfold wheelRanks; set_solver..].
Qed.

Lemma rankSet_perm cards cards' :
  cards ≡ₚ cards' → rankSet cards = rankSet cards'.
Proof.
  intros Hp. unfold rankSet, ranksOnly. apply set_eq. intros r.
  rewrite !elem_of_list_to_set. by rewrite Hp.
Qed.

(** C3: five cards with the ranks Ace, Two, Three, Four, Five that are not
    all of one suit are classified as a Straight whose only kicker is Five. *)
Theorem evaluate5_wheel_straight (cards : list Card) :
  length cards = 5%nat →
  rankSet cards = wheelRanks →
  ¬ (∃ s, Forall (λ c, Card_Suit c = s) cards) →
  evaluate5 cards = Some (mkHandValue Straight [Five]).
Proof.
  intros Hlen Hset Hmixed. unfold evaluate5, evaluate5_inplace. simpl.
  pose proof (sortSlice_perm byRankDesc cards) as Hp.
  set (sorted := sortSlice byRankDesc cards) in *.
  unfold classify.
  destruct (detectFlush_mixed sorted) as [s ->].
  { by rewrite Hp. }
  { intros [s Hs]. apply Hmixed. exists s. by rewrite <- Hp. }
  rewrite (detectStraight_wheel sorted); [done|].
  by rewrite (rankSet_perm _ _ Hp).
Qed.

Lemma evaluate5_wheel_straight_witness :
  evaluate5 [mkCard Hearts Five "H5"; mkCard Diamonds Ace "DA";
             mkCard Clubs Three "C3"; mkCard Spades Two "S2";
             mkCard Hearts Four "H4"]
  = Some (mkHandValue Straight [Five]).
Proof.
  apply evaluate5_wheel_straight.
  - reflexivity.
  - vm_compute. reflexivity.
  - intros [s Hs]. rewrite !Forall_cons in Hs. simpl in Hs.
    unfold Hearts, Diamonds in Hs. lia.
Defined.

(** C10: five cards of one suit with the ranks Ace, Two, Three, Four, Five
    are classified as a Straight Flush whose only kicker is Five. *)
Theorem evaluate5_steel_wheel (cards : list Card) (s : Suit) :
  length cards = 5%nat →
  rankSet cards = wheelRanks →
  Forall (λ c, Card_Suit c = s) cards →
  evaluate5 cards = Some (mkHandValue StraightFlush [Five]).
Proof.
  intros Hlen Hset Hsuit. unfold evaluate5, evaluate5_inplace. simpl.
  pose proof (sortSlice_perm byRankDesc cards) as Hp.
  set (sorted := sortSlice byRankDesc cards) in *.
  assert (Forall (λ c, Card_Suit c = s) sorted) as Hsuit' by (by rewrite Hp).
  assert (rankSet sorted = wheelRanks) as Hset'
    by (by rewrite (rankSet_perm _ _ Hp)).
  unfold classify.
  rewrite (detectFlush_one_suit sorted s); [|by rewrite Hp|done].
  rewrite (detectStraight_wheel sorted) by done.
  assert (filterBySuit sorted s = sorted) as ->.
  { unfold filterBySuit. clear -Hsuit'.
    induction Hsuit' as [|c l Hc _ IH]; [done|].
    by rewrite filter_cons_True, IH. }
  by rewrite (detectStraight_wheel sorted).
Qed.

Lemma evaluate5_steel_wheel_witness :
  evaluate5 [mkCard Clubs Five "C5"; mkCard Clubs Ace "CA";
             mkCard Clubs Three "C3"; mkCard Clubs Two "C2";
             mkCard Clubs Four "C4"]
  = Some (mkHandValue StraightFlush [Five]).
Proof.
  apply (evaluate5_steel_wheel _ Clubs).
  - reflexivity.
  - vm_compute. reflexivity.
  - repeat constructor.
Defined.

(** ** The classifier depends on the multiset of cards only *)

Lemma byRankDesc_asym a b : byRankDesc a b = true → byRankDesc b a = false.
Proof. unfold byRankDesc. rewrite Z.ltb_lt, Z.ltb_ge. lia. Qed.

Lemma sortSlice_rankDescending cards :
  rankDescending (sortSlice byRankDesc cards).
Proof.
  apply Sorted_StronglySorted.
  - intros a b c. unfold byRankDesc. rewrite !Z.ltb_ge. lia.
  - apply sortSlice_sorted, byRankDesc_asym.
Qed.

Lemma rankDescending_filter (P : Card → Prop) `{!∀ c, Decision (P c)} cards :
  rankDescending cards → rankDescending (filter P cards).
Proof.
  unfold rankDescending. induction 1 as [|c cards Hs IH Hc]; [constructor|].
  rewrite filter_cons. case_decide; [|done].
  constructor; [done|].
  rewrite Forall_forall in *. intros c' [_ Hc']%list_elem_of_filter. auto.
Qed.

(** Two rank-descending arrangements of the same cards show the same
    sequence of ranks. *)
Lemma rankDescending_unique cards cards' :
  rankDescending cards → rankDescending cards' → cards ≡ₚ cards' →
  ranksOnly cards = ranksOnly cards'.
Proof.
  intros Hs Hs' Hp. unfold ranksOnly.
  apply (StronglySorted_unique_strong (λ x y : Z, y ≤ x)).
  - intros x y _ _ ? ?. lia.
  - eapply StronglySorted_fmap, Hs. intros a b. unfold byRankDesc.
    by rewrite Z.ltb_ge.
  - eapply StronglySorted_fmap, Hs'. intros a b. unfold byRankDesc.
    by rewrite Z.ltb_ge.
  - by rewrite Hp.
Qed.

Lemma highestDifferentRank_ranks cards cards' exclude :
  ranksOnly cards = ranksOnly cards' →
  highestDifferentRank cards exclude = highestDifferentRank cards' exclude.
Proof.
  revert cards'. induction cards as [|c cards IH]; intros [|c' cards'];
    simpl; try done.
  intros [= -> Hr]. by rewrite (IH cards').
Qed.

Lemma collectKickers_ranks cards cards' exclude n res :
  ranksOnly cards = ranksOnly cards' →
  collectKickers cards exclude n res = collectKickers cards' exclude n res.
Proof.
  revert cards' res. induction cards as [|c cards IH]; intros [|c' cards'] res;
    simpl; try done.
  intros [= -> Hr]. by rewrite (IH cards').
Qed.

Lemma filterBySuit_perm cards cards' s :
  cards ≡ₚ cards' → filterBySuit cards s ≡ₚ filterBySuit cards' s.
Proof. unfold filterBySuit. by intros ->. Qed.

Lemma classify_perm cards cards' :
  rankDescending cards → rankDescending cards' → cards ≡ₚ cards' →
  classify cards = classify cards'.
Proof.
  intros Hs Hs' Hp. unfold classify, rankGroups,
    topKickersExcluding, topThreeKickersExcluding.
  pose proof (rankDescending_unique _ _ Hs Hs' Hp) as Hr.
  rewrite <- (detectFlush_perm _ _ Hp), <- (detectStraight_perm _ _ Hp),
    <- (rankCounts_perm _ _ Hp), <- Hr.
  destruct (detectFlush cards) as [isFlush flushSuit].
  rewrite <- (detectStraight_perm _ _ (filterBySuit_perm _ _ flushSuit Hp)).
  rewrite <- (rankDescending_unique (filterBySuit cards flushSuit)
                (filterBySuit cards' flushSuit));
    [|by apply rankDescending_filter..|by apply filterBySuit_perm].
  destruct (detectStraight cards) as [isStr topStr].
  destruct isFlush; [done|]. destruct isStr; [done|].
  destruct (_ !! 0%nat) as [p0|]; [simpl|done].
  repeat case_decide; try destruct (_ !! 1%nat) as [p1|]; simpl;
    try destruct (p0.1 <? p1.1);
    by rewrite ?(highestDifferentRank_ranks _ _ _ Hr),
      ?(collectKickers_ranks _ _ _ _ _ Hr).
Qed.

Lemma evaluate5_perm cards cards' :
  cards ≡ₚ cards' → evaluate5 cards = evaluate5 cards'.
Proof.
  intros Hp. unfold evaluate5, evaluate5_inplace. simpl.
  apply classify_perm; [apply sortSlice_rankDescending..|].
  by rewrite !sortSlice_perm.
Qed.

(** ** The classifier never fails on five cards *)

Lemma collectKickers_take cards exclude n res :
  (length res < n)%nat →
  collectKickers cards exclude n res =
  take n (res ++ ranksOnly (kept exclude cards)).
Proof.
  revert res. induction cards as [|c cards IH]; intros res Hlen; simpl.
  { rewrite app_nil_r, take_ge; [done | lia]. }
  unfold kept, excluded. rewrite filter_cons.
  destruct (decide (Card_Rank c ∈ exclude)) as [Hin|Hin].
  - rewrite bool_decide_eq_true_2 by done.
    rewrite decide_False by lia.
    rewrite decide_False by (intros Hn; by apply Hn). by apply IH.
  - rewrite bool_decide_eq_false_2 by done.
    rewrite (decide_True (P := Card_Rank c ∉ exclude)) by done.
    assert (∀ l, res ++ ranksOnly (c :: l)
                 = (res ++ [Card_Rank c]) ++ ranksOnly l) as ->
      by (intros l; by rewrite <- (assoc_L (++))).
    case_decide as Hn.
    + by rewrite <- Hn, take_app_length.
    + apply IH. rewrite length_app in *. simpl in *. lia.
Qed.

Lemma kept_length r cards :
  length (kept [r] cards) = (length cards - occurrences Card_Rank r cards)%nat.
Proof.
  unfold kept, occurrences.
  pose proof (filter_app_complement (λ c, Card_Rank c = r) cards) as Hp.
  apply Permutation_length in Hp. rewrite length_app in Hp.
  rewrite <- Hp.
  rewrite (list_filter_iff (λ c, Card_Rank c ∉ [r]) (λ c, Card_Rank c ≠ r)).
  - lia.
  - intros c. by rewrite list_elem_of_singleton.
Qed.

Lemma rankGroups_perm_entries cards :
  rankGroups cards ≡ₚ map_to_list (rankCounts cards).
Proof. apply sortSlice_perm. Qed.

Lemma rankGroups_elem cards r n :
  (r, n) ∈ rankGroups cards →
  n = Z.of_nat (occurrences Card_Rank r cards) ∧ 0 < n.
Proof.
  rewrite rankGroups_perm_entries, elem_of_map_to_list, rankCounts_lookup.
  case_decide; [done|]. intros [= <-]. lia.
Qed.

Lemma rankGroups_head cards c :
  c ∈ cards → is_Some (rankGroups cards !! 0%nat).
Proof.
  intros Hc. destruct (rankGroups cards) as [|p ps] eqn:E; [|by eexists].
  pose proof (rankGroups_perm_entries cards) as Hp. rewrite E in Hp.
  symmetry in Hp. apply Permutation_nil_r, map_to_list_empty_iff in Hp.
  assert (rankCounts cards !! Card_Rank c = None) as Hnone
    by (by rewrite Hp).
  rewrite rankCounts_lookup in Hnone. case_decide as Hocc; [|done].
  assert (0 < occurrences Card_Rank (Card_Rank c) cards)%nat; [|lia].
  apply occurrences_pos. by apply list_elem_of_fmap_2.
Qed.

Lemma topKickersExcluding_is_Some cards r :
  (2 ≤ length cards - occurrences Card_Rank r cards)%nat →
  is_Some (topKickersExcluding cards [r] 2).
Proof.
  intros Hlen. unfold topKickersExcluding.
  rewrite collectKickers_take by (simpl; lia). simpl.
  pose proof (kept_length r cards) as Hk.
  destruct (kept [r] cards) as [|c1 [|c2 l]]; simpl in *; try lia.
  by eexists.
Qed.

Lemma topThreeKickersExcluding_is_Some cards r :
  (3 ≤ length cards - occurrences Card_Rank r cards)%nat →
  is_Some (topThreeKickersExcluding cards [r]).
Proof.
  intros Hlen. unfold topThreeKickersExcluding.
  rewrite collectKickers_take by (simpl; lia). simpl.
  pose proof (kept_length r cards) as Hk.
  destruct (kept [r] cards) as [|c1 [|c2 [|c3 l]]]; simpl in *; try lia.
  by eexists.
Qed.

Lemma classify_is_Some cards :
  length cards = 5%nat → is_Some (classify cards).
Proof.
  intros Hlen. unfold classify.
  destruct (detectFlush cards) as [isFlush flushSuit].
  destruct (detectStraight cards) as [isStr topStr].
  destruct isFlush.
  { destruct (detectStraight _) as [[] ?]; by eexists. }
  destruct isStr; [by eexists|].
  destruct cards as [|c0 cards0] eqn:Ecards; [done|]. rewrite <- Ecards in *.
  destruct (rankGroups_head cards c0) as [[r n] Hp0].
  { rewrite Ecards. left. }
  rewrite Hp0. simpl.
  destruct (rankGroups_elem cards r n) as [Hn _].
  { by eapply list_elem_of_lookup_2. }
  repeat case_decide; try by eexists.
  - destruct (_ !! 1%nat) eqn:E1; [by eexists|].
    apply lookup_ge_None in E1. lia.
  - destruct (topKickersExcluding_is_Some cards r) as [[k1 k2] ->]; [lia|].
    by eexists.
  - destruct (_ !! 1%nat) as [p1|] eqn:E1.
    + simpl. destruct (r <? p1.1); by eexists.
    + apply lookup_ge_None in E1. lia.
  - destruct (topThreeKickersExcluding_is_Some cards r) as [[[k1 k2] k3] ->];
      [lia|].
    by eexists.
Qed.

Lemma evaluate5_is_Some cards :
  length cards = 5%nat → is_Some (evaluate5 cards).
Proof.
  intros Hlen. apply classify_is_Some. by rewrite sortSlice_length.
Qed.

(** ** Best of seven as a maximum over the 5-element sublists *)

Lemma bestLoop_combos fuel cards indexes best visited :
  combosFrom fuel indexes = Some visited →
  bestLoop fuel cards indexes best =
  hvs ← mapM (evalCombo cards) visited; Some (foldl better best hvs).
Proof.
  revert indexes best visited.
  induction fuel as [|fuel IH]; intros indexes best visited; simpl; [done|].
  destruct (next indexes) as [indexes'|]; [|by intros [= <-]].
  destruct (combosFrom fuel indexes') as [rest|] eqn:E; [|done].
  intros [= <-]. simpl.
  destruct (evalCombo cards indexes') as [hv|]; [simpl|done].
  rewrite (IH _ _ _ E). by destruct (mapM _ rest).
Qed.

(** The loop stops by itself after 20 further combinations. *)
Lemma combosFrom_start :
  combosFrom 21 [0; 1; 2; 3; 4]%nat = Some
    [[0; 1; 2; 3; 5]; [0; 1; 2; 3; 6]; [0; 1; 2; 4; 5]; [0; 1; 2; 4; 6];
     [0; 1; 2; 5; 6]; [0; 1; 3; 4; 5]; [0; 1; 3; 4; 6]; [0; 1; 3; 5; 6];
     [0; 1; 4; 5; 6]; [0; 2; 3; 4; 5]; [0; 2; 3; 4; 6]; [0; 2; 3; 5; 6];
     [0; 2; 4; 5; 6]; [0; 3; 4; 5; 6]; [1; 2; 3; 4; 5]; [1; 2; 3; 4; 6];
     [1; 2; 3; 5; 6]; [1; 2; 4; 5; 6]; [1; 3; 4; 5; 6]; [2; 3; 4; 5; 6]]%nat.
Proof. reflexivity. Qed.

Lemma EvaluateBestHand_combs cards :
  length cards = 7%nat →
  EvaluateBestHand cards = bestOf (evaluate5 <$> combs 5 cards).
Proof.
  intros Hlen.
  destruct cards as [|c0 [|c1 [|c2 [|c3 [|c4 [|c5 [|c6 [|]]]]]]]]; try done.
  unfold EvaluateBestHand.
  set (cards := [c0; c1; c2; c3; c4; c5; c6]).
  set (start := [0; 1; 2; 3; 4]%nat).
  trans (best ← evalCombo cards start;
         bestLoop 21 cards start best); [by case_decide|].
  erewrite option_bind_ext_fun;
    [|intros best; apply bestLoop_combos, combosFrom_start].
  subst cards start.
  unfold bestOf, evalCombo. generalize better evaluate5. intros bt ev.
  cbn.
  repeat match goal with
         | |- context [ev ?l] => destruct (ev l); cbn; [|done]
         end.
  done.
Qed.

(** ** Permuting the cards permutes the sublists *)

Lemma combs_0 {A : Type} (l : list A) : combs 0 l = [[]].
Proof. by destruct l. Qed.

Lemma combs_perm {A B : Type} (f : list A → B) (k : nat) (l l' : list A) :
  (∀ h h', h ≡ₚ h' → f h = f h') →
  l ≡ₚ l' → f <$> combs k l ≡ₚ f <$> combs k l'.
Proof.
  intros Hf Hp. revert B f k Hf.
  induction Hp as [|x l l' _ IH|x y l|l l' l'' _ IH _ IH'];
    intros B f k Hf.
  - done.
  - destruct k as [|k]; [done|]. simpl.
    rewrite !fmap_app, <- !list_fmap_compose.
    f_equiv; [|by apply IH].
    apply IH. intros h h' Hh. simpl. apply Hf. by rewrite Hh.
  - destruct k as [|[|k]]; [done| |]; simpl.
    + rewrite !combs_0. apply Permutation_swap.
    + rewrite !fmap_app, <- !list_fmap_compose.
      rewrite <- !(assoc_L (++)). f_equiv.
      { erewrite list_fmap_ext; [done|].
        intros _ h _. simpl. apply Hf, Permutation_swap. }
      rewrite !(assoc_L (++)). f_equiv. apply Permutation_app_comm.
  - by rewrite (IH B f k), (IH' B f k).
Qed.

Lemma sequence_perm {A : Type} (os os' : list (option A)) xs :
  os ≡ₚ os' → mapM id os = Some xs →
  ∃ xs', mapM id os' = Some xs' ∧ xs ≡ₚ xs'.
Proof.
  intros Hp. revert xs.
  induction Hp as [|o os os' _ IH|o1 o2 os|os os' os'' _ IH _ IH'];
    intros xs; cbn.
  - eauto.
  - destruct o as [x|]; [cbn|done].
    destruct (mapM id os) as [t|]; [cbn|done]. intros [= <-].
    destruct (IH t eq_refl) as (t' & -> & Ht). cbn.
    eexists. split; [done|]. by rewrite Ht.
  - destruct o1 as [x1|], o2 as [x2|]; try done; cbn.
    destruct (mapM id os) as [t|]; [cbn|done]. intros [= <-].
    eexists. split; [done|]. apply Permutation_swap.
  - intros (xs' & H' & Hxs)%IH. apply IH' in H' as (xs'' & ? & ?).
    exists xs''. split; [done|]. by etrans.
Qed.

(** ** The value kept by the search is the greatest one *)

Lemma foldl_better_max best hvs :
  foldl better best hvs ∈ best :: hvs ∧
  ∀ hv, hv ∈ best :: hvs → 0 ≤ CompareHandValues (foldl better best hvs) hv.
Proof.
  induction hvs as [|x hvs [IHin IHmax]] using rev_ind; simpl.
  { split; [left|]. intros hv ->%list_elem_of_singleton.
    by rewrite CompareHandValues_refl. }
  rewrite foldl_snoc. unfold better at 1 3.
  destruct (Z.ltb_spec 0 (CompareHandValues x (foldl better best hvs))) as [Hx|Hx].
  - split; [apply elem_of_cons; right; apply elem_of_app; right; left|].
    intros hv [->|[Hhv| ->%list_elem_of_singleton]%elem_of_app]%elem_of_cons.
    + eapply CompareHandValues_trans; [|apply IHmax; left]. lia.
    + eapply CompareHandValues_trans; [|apply IHmax; by right]. lia.
    + by rewrite CompareHandValues_refl.
  - split; [rewrite app_comm_cons; apply elem_of_app; by left|].
    intros hv [->|[Hhv| ->%list_elem_of_singleton]%elem_of_app]%elem_of_cons.
    + apply IHmax; left.
    + apply IHmax; by right.
    + rewrite CompareHandValues_antisym. lia.
Qed.

Lemma foldl_better_perm best hvs best' hvs' :
  best :: hvs ≡ₚ best' :: hvs' →
  foldl better best hvs = foldl better best' hvs'.
Proof.
  intros Hp.
  destruct (foldl_better_max best hvs) as [Hin Hmax].
  destruct (foldl_better_max best' hvs') as [Hin' Hmax'].
  apply CompareHandValues_eq.
  rewrite Hp in Hin. rewrite <- Hp in Hin'.
  apply Hmax in Hin'. apply Hmax' in Hin.
  rewrite CompareHandValues_antisym in Hin. lia.
Qed.

Lemma bestOf_Some_perm results results' hv :
  results ≡ₚ results' → bestOf results = Some hv → bestOf results' = Some hv.
Proof.
  intros Hp. unfold bestOf.
  destruct (mapM id results) as [hvs|] eqn:E; [cbn|done].
  destruct (sequence_perm _ _ _ Hp E) as (hvs' & -> & Hhvs). cbn.
  destruct hvs as [|h t]; [done|]. intros [= <-].
  destruct hvs' as [|h' t'].
  { by apply Permutation_nil_r in Hhvs. }
  f_equal. symmetry. by apply foldl_better_perm.
Qed.

Lemma bestOf_is_Some results :
  results ≠ [] → Forall is_Some results → is_Some (bestOf results).
Proof.
  intros Hne Hall. unfold bestOf.
  destruct (mapM_is_Some_2 id results) as [hvs Hhvs]; [done|].
  rewrite Hhvs. cbn. destruct hvs as [|h t]; [|by eexists].
  apply mapM_Some_1 in Hhvs. by inv Hhvs.
Qed.

Lemma combs_length_elem {A : Type} (k : nat) (l h : list A) :
  h ∈ combs k l → length h = k.
Proof.
  revert k h. induction l as [|x l IH]; intros [|k] h; simpl.
  - by intros ->%list_elem_of_singleton.
  - by intros ?%not_elem_of_nil.
  - by intros ->%list_elem_of_singleton.
  - intros [(h' & -> & Hh')%list_elem_of_fmap|Hh]%elem_of_app.
    + simpl. f_equal. by apply IH.
    + by apply IH.
Qed.

Lemma EvaluateBestHand_is_Some cards :
  length cards = 7%nat → is_Some (EvaluateBestHand cards).
Proof.
  intros Hlen. rewrite EvaluateBestHand_combs by done.
  apply bestOf_is_Some.
  - destruct cards as [|c0 [|c1 [|c2 [|c3 [|c4 [|c5 [|c6 [|]]]]]]]]; done.
  - apply Forall_fmap, Forall_forall. intros h Hh. simpl.
    apply evaluate5_is_Some. by eapply combs_length_elem.
Qed.

(** C5: on seven cards, the best hand value is found, and it is the same for
    every ordering of the seven cards. *)
Theorem EvaluateBestHand_permutation_invariant (cards cards' : list Card) :
  length cards = 7%nat → cards ≡ₚ cards' →
  ∃ hv, EvaluateBestHand cards = Some hv ∧ EvaluateBestHand cards' = Some hv.
Proof.
  intros Hlen Hp.
  destruct (EvaluateBestHand_is_Some cards Hlen) as [hv Hhv].
  exists hv. split; [done|].
  rewrite EvaluateBestHand_combs in * by (by rewrite <- ?Hp).
  eapply bestOf_Some_perm; [|done].
  apply combs_perm; [apply evaluate5_perm | done].
Qed.

Lemma EvaluateBestHand_permutation_invariant_witness :
  let cards := [mkCard Hearts Two "H2"; mkCard Diamonds Ace "DA";
                mkCard Clubs Seven "C7"; mkCard Spades Two "S2";
                mkCard Hearts King "HK"; mkCard Hearts Six "H6";
                mkCard Clubs Ace "CA"] in
  ∃ hv, EvaluateBestHand cards = Some hv ∧
        EvaluateBestHand (reverse cards) = Some hv.
Proof.
  intros cards. apply EvaluateBestHand_permutation_invariant.
  - reflexivity.
  - symmetry. apply reverse_Permutation.
Defined.

(** ** Shuffling and dealing *)

Lemma swapAt_perm tmp i j : swapAt tmp i j ≡ₚ tmp.
Proof.
  unfold swapAt.
  destruct (tmp !! i) as [a|] eqn:Hi; [|done].
  destruct (tmp !! j) as [b|] eqn:Hj; [|done].
  destruct (decide (i = j)) as [->|Hne].
  - rewrite list_insert_insert_eq, list_insert_id; [done | congruence].
  - apply Permutation_inj. split; [by rewrite !length_insert|].
    exists (λ n, if decide (n = i) then j else if decide (n = j) then i else n).
    split.
    + intros n m. repeat case_decide; congruence.
    + intros n. repeat case_decide; subst.
      * rewrite list_lookup_insert_eq, Hj; [done|].
        rewrite length_insert. by eapply lookup_lt_Some.
      * rewrite list_lookup_insert_ne, list_lookup_insert_eq, Hi by
          (done || by eapply lookup_lt_Some). done.
      * by rewrite !list_lookup_insert_ne.
Qed.

Lemma shuffleFrom_perm i rng tmp : (shuffleFrom i rng tmp).1 ≡ₚ tmp.
Proof.
  revert rng tmp. induction i as [|i IH]; intros rng tmp; [done|].
  cbn [shuffleFrom]. destruct (Intn rng (S i + 1)) as [j rng'].
  rewrite IH. apply swapAt_perm.
Qed.

(** The shuffled deck holds the cards of the deck, each as often. *)
Lemma Shuffle_perm rng deck : (Shuffle rng deck).1 ≡ₚ deck.
Proof. apply shuffleFrom_perm. Qed.

Lemma Shuffle_length rng deck : length (Shuffle rng deck).1 = length deck.
Proof. by rewrite Shuffle_perm. Qed.

Lemma drawBoard_spec toDraw tmp simCommunity drawIdx :
  (drawIdx + toDraw ≤ length tmp)%nat →
  drawBoard toDraw tmp simCommunity drawIdx =
  Some (simCommunity ++ take toDraw (drop drawIdx tmp),
        (drawIdx + toDraw)%nat).
Proof.
  revert simCommunity drawIdx.
  induction toDraw as [|n IH]; intros sc d Hlen; simpl.
  { by rewrite app_nil_r, Nat.add_0_r. }
  destruct (lookup_lt_is_Some_2 tmp d) as [c Hc]; [lia|].
  rewrite Hc. simpl. rewrite IH by lia.
  rewrite (drop_S _ _ _ Hc). simpl.
  by rewrite <- (assoc_L (++)), Nat.add_succ_r.
Qed.

Lemma dealOpponents_spec n tmp board heroBest drawIdx villainBetter equalCount :
  length board = 5%nat → (drawIdx ≤ length tmp)%nat →
  ∃ k oppBests,
    opponentsDealt tmp drawIdx n k ∧
    Forall2 (oppBestAt tmp board drawIdx) (seq 0 k) oppBests ∧
    dealOpponents n tmp board heroBest drawIdx villainBetter equalCount =
    Some (villainBetter || existsb (beatenBy heroBest) oppBests,
          equalCount
          + Z.of_nat (length (filter (λ o, tiedWith heroBest o = true) oppBests))).
Proof.
  intros Hboard. revert drawIdx villainBetter equalCount.
  induction n as [|n IH]; intros d vb eq Hd; simpl.
  { exists 0%nat, []. split; [unfold opponentsDealt; lia|].
    split; [constructor|]. simpl. by rewrite orb_false_r, Z.add_0_r. }
  case_decide as Hshort.
  { exists 0%nat, []. split; [unfold opponentsDealt; lia|].
    split; [constructor|]. simpl. by rewrite orb_false_r, Z.add_0_r. }
  destruct (lookup_lt_is_Some_2 tmp d) as [c1 Hc1]; [lia|].
  destruct (lookup_lt_is_Some_2 tmp (d + 1)) as [c2 Hc2]; [lia|].
  rewrite Hc1, Hc2. simpl.
  assert (opponentHole tmp d 0 = [c1; c2]) as Hhole.
  { unfold opponentHole. rewrite Nat.add_0_r.
    rewrite (drop_S _ _ _ Hc1). simpl. f_equal.
    replace (S d) with (d + 1)%nat by lia.
    by rewrite (drop_S _ _ _ Hc2). }
  destruct (EvaluateBestHand_is_Some ([c1; c2] ++ board)) as [o Ho].
  { rewrite length_app, Hboard. done. }
  simpl in Ho. rewrite Ho. simpl.
  set (vb' := if 0 <? CompareHandValues o heroBest then true else vb).
  set (eq' := if 0 <? CompareHandValues o heroBest then eq
              else if CompareHandValues o heroBest =? 0 then eq + 1 else eq).
  assert ((if 0 <? CompareHandValues o heroBest then (true, eq)
           else if CompareHandValues o heroBest =? 0 then (vb, eq + 1)
           else (vb, eq)) = (vb', eq')) as ->.
  { unfold vb', eq'. by repeat case_match. }
  destruct (IH (d + 2)%nat vb' eq') as (k & opps & Hk & Hopps & ->); [lia|].
  exists (S k), (o :: opps). split; [unfold opponentsDealt in *; lia|].
  split.
  - simpl. constructor.
    + unfold oppBestAt. by rewrite Hhole.
    + rewrite <- fmap_S_seq. apply Forall2_fmap_l.
      eapply Forall2_impl; [done|]. intros i o'. unfold oppBestAt, opponentHole.
      by replace (d + 2 + 2 * i)%nat with (d + 2 * S i)%nat by lia.
  - f_equal. unfold vb', eq'. simpl. rewrite filter_cons.
    change (beatenBy heroBest o) with (0 <? CompareHandValues o heroBest).
    change (tiedWith heroBest o) with (CompareHandValues o heroBest =? 0).
    destruct (Z.ltb_spec 0 (CompareHandValues o heroBest)),
      (Z.eqb_spec (CompareHandValues o heroBest) 0);
      try lia; case_decide; try done; simpl; f_equal; try lia.
Qed.

Lemma tied_count_pos heroBest oppBests :
  (0 <? 0 + Z.of_nat (length (filter (λ o, tiedWith heroBest o = true) oppBests)))
  = existsb (tiedWith heroBest) oppBests.
Proof.
  induction oppBests as [|o opps IH]; [done|].
  rewrite filter_cons. simpl. destruct (tiedWith heroBest o) eqn:E.
  - rewrite decide_True by done. simpl. apply Z.ltb_lt. lia.
  - rewrite decide_False by done. exact IH.
Qed.

Section Trial.
Context (rng : Rng) (heroHole community deck : list Card) (numOpponents : Z).
Hypothesis hero_two : length heroHole = 2%nat.
Hypothesis community_le : (length community ≤ 5)%nat.
Hypothesis deck_completes_board : (5 - length community ≤ length deck)%nat.

Let tmp := (Shuffle rng deck).1.
Let toDraw := (5 - length community)%nat.
Let board := community ++ take toDraw tmp.

Lemma board_length : length board = 5%nat.
Proof.
  unfold board. rewrite length_app, length_take.
  unfold tmp. rewrite Shuffle_length. unfold toDraw. lia.
Qed.

Lemma simulateOnce_spec :
  ∃ heroBest k oppBests,
    EvaluateBestHand (heroHole ++ board) = Some heroBest ∧
    opponentsDealt tmp toDraw (Z.to_nat numOpponents) k ∧
    Forall2 (oppBestAt tmp board toDraw) (seq 0 k) oppBests ∧
    simulateOnce rng heroHole community deck numOpponents =
    Some (trialOutcome heroBest oppBests, (Shuffle rng deck).2).
Proof.
  pose proof board_length as Hboard.
  assert (toDraw ≤ length tmp)%nat as Htmp
    by (unfold tmp; rewrite Shuffle_length; done).
  destruct (EvaluateBestHand_is_Some (heroHole ++ board)) as [heroBest Hhero].
  { rewrite length_app, Hboard, hero_two. done. }
  destruct (dealOpponents_spec (Z.to_nat numOpponents) tmp board heroBest
              toDraw false 0 Hboard Htmp) as (k & opps & Hk & Hopps & Hdeal).
  exists heroBest, k, opps. do 3 (split; [done|]).
  unfold simulateOnce.
  destruct (Shuffle rng deck) as [tmp' rng'] eqn:Hsh. simpl in *.
  replace (Z.to_nat (5 - Z.of_nat (length community))) with toDraw
    by (unfold toDraw; lia).
  rewrite drawBoard_spec by (unfold tmp in Htmp; simpl; lia). simpl.
  rewrite drop_0. change (community ++ take toDraw tmp') with board.
  change tmp' with tmp. rewrite Hhero. simpl.
  rewrite Hdeal. simpl. unfold trialOutcome.
  destruct (existsb (beatenBy heroBest) opps); [done|].
  rewrite tied_count_pos. by destruct (existsb (tiedWith heroBest) opps).
Qed.
End Trial.

Lemma beatenBy_exists heroBest oppBests :
  existsb (beatenBy heroBest) oppBests = true ↔
  ∃ o, o ∈ oppBests ∧ 0 < CompareHandValues o heroBest.
Proof.
  rewrite existsb_exists. unfold beatenBy.
  split; intros (o & Ho & Hc); exists o.
  - by rewrite list_elem_of_In, <- Z.ltb_lt.
  - by rewrite <- list_elem_of_In, Z.ltb_lt.
Qed.

Lemma tiedWith_exists heroBest oppBests :
  existsb (tiedWith heroBest) oppBests = true ↔ heroBest ∈ oppBests.
Proof.
  rewrite existsb_exists. unfold tiedWith. split.
  - intros (o & Ho & Hc). apply Z.eqb_eq, CompareHandValues_eq in Hc.
    subst. by apply list_elem_of_In.
  - intros Hin. exists heroBest. split; [by apply list_elem_of_In|].
    apply Z.eqb_eq, CompareHandValues_refl.
Qed.

(** C2: a trial returns exactly one of the three outcomes: a villain win if
    some opponent's hand value is strictly greater than hero's, otherwise a
    tie if some opponent's hand value equals hero's, otherwise a hero win.
    The opponents compared are those dealt their two cards: all of them
    whenever the deck holds two cards for each. *)
Theorem simulateOnce_outcome (rng : Rng) (heroHole community deck : list Card)
    (numOpponents : Z) :
  length heroHole = 2%nat →
  (length community ≤ 5)%nat →
  (5 - length community ≤ length deck)%nat →
  let tmp := (Shuffle rng deck).1 in
  let toDraw := (5 - length community)%nat in
  let board := community ++ take toDraw tmp in
  ∃ heroBest k oppBests outcome rng',
    EvaluateBestHand (heroHole ++ board) = Some heroBest ∧
    opponentsDealt tmp toDraw (Z.to_nat numOpponents) k ∧
    ((toDraw + 2 * Z.to_nat numOpponents ≤ length deck)%nat →
     k = Z.to_nat numOpponents) ∧
    Forall2 (oppBestAt tmp board toDraw) (seq 0 k) oppBests ∧
    simulateOnce rng heroHole community deck numOpponents
      = Some (outcome, rng') ∧
    (((∃ o, o ∈ oppBests ∧ 0 < CompareHandValues o heroBest) ∧
        outcome = (false, true, false))
     ∨ (¬ (∃ o, o ∈ oppBests ∧ 0 < CompareHandValues o heroBest) ∧
        heroBest ∈ oppBests ∧ outcome = (false, false, true))
     ∨ (¬ (∃ o, o ∈ oppBests ∧ 0 < CompareHandValues o heroBest) ∧
        (heroBest ∉ oppBests) ∧ outcome = (true, false, false))).
Proof.
  intros Hhero Hcomm Hdeck tmp toDraw board.
  destruct (simulateOnce_spec rng heroHole community deck numOpponents
              Hhero Hcomm Hdeck) as (heroBest & k & opps & Hh & Hk & Hopps & Hsim).
  exists heroBest, k, opps, (trialOutcome heroBest opps), (Shuffle rng deck).2.
  do 2 (split; [done|]). split.
  { intros Henough. unfold opponentsDealt in Hk. subst tmp.
    rewrite Shuffle_length in Hk. lia. }
  do 2 (split; [done|]).
  unfold trialOutcome.
  destruct (existsb (beatenBy heroBest) opps) eqn:Hb.
  { left. split; [by apply beatenBy_exists | done]. }
  assert (¬ ∃ o, o ∈ opps ∧ 0 < CompareHandValues o heroBest) as Hnb.
  { rewrite <- beatenBy_exists. by rewrite Hb. }
  destruct (existsb (tiedWith heroBest) opps) eqn:Ht.
  - right; left. split; [done|]. split; [by apply tiedWith_exists | done].
  - right; right. split; [done|]. split; [|done].
    rewrite <- tiedWith_exists. by rewrite Ht.
Qed.

Lemma simulateOnce_outcome_witness :
  ∃ heroBest k oppBests outcome rng',
    let tmp := (Shuffle [7; 2; 9]%nat knownDeck).1 in
    EvaluateBestHand (knownHero ++ knownBoard ++ take 0 tmp) = Some heroBest ∧
    k = 2%nat ∧
    Forall2 (oppBestAt tmp (knownBoard ++ take 0 tmp) 0) (seq 0 k) oppBests ∧
    simulateOnce [7; 2; 9]%nat knownHero knownBoard knownDeck 2
      = Some (outcome, rng').
Proof.
  destruct (simulateOnce_outcome [7; 2; 9]%nat knownHero knownBoard knownDeck 2)
    as (heroBest & k & opps & outcome & rng' & Hh & _ & Hk & Hopps & Hsim & _).
  - reflexivity.
  - simpl. lia.
  - vm_compute. lia.
  - exists heroBest, k, opps, outcome, rng'.
    split; [exact Hh|]. split; [|split; [exact Hopps | exact Hsim]].
    apply Hk. vm_compute. lia.
Defined.

(** ** Workers and aggregation *)

Lemma trialOutcome_cases heroBest oppBests :
  trialOutcome heroBest oppBests = (false, true, false) ∨
  trialOutcome heroBest oppBests = (false, false, true) ∨
  trialOutcome heroBest oppBests = (true, false, false).
Proof. unfold trialOutcome. repeat case_match; auto. Qed.

Lemma workerLoop_spec n rng heroHole community deck numOpponents local :
  length heroHole = 2%nat →
  (length community ≤ 5)%nat →
  (5 - length community ≤ length deck)%nat →
  ∃ r, workerLoop n rng heroHole community deck numOpponents local = Some r ∧
       TrialsRun r = TrialsRun local + Z.of_nat n ∧
       tallied r = tallied local + Z.of_nat n.
Proof.
  intros Hhero Hcomm Hdeck. revert rng local.
  induction n as [|n IH]; intros rng local.
  { exists local. simpl. split; [done|]. lia. }
  cbn [workerLoop].
  destruct (simulateOnce_spec rng heroHole community deck numOpponents
              Hhero Hcomm Hdeck) as (heroBest & k & opps & _ & _ & _ & ->).
  cbn [mbind option_bind].
  set (rng' := (Shuffle rng deck).2). clearbody rng'.
  destruct (trialOutcome_cases heroBest opps) as [-> | [-> | ->]];
    match goal with
    | |- context [workerLoop n rng' _ _ _ _ ?l] =>
        destruct (IH rng' l) as (r & -> & Hruns & Htally)
    end;
    exists r; (split; [done|]); unfold tallied in *; simpl in *; lia.
Qed.

Lemma worker_spec rng heroHole community deck numOpponents trialsForWorker :
  length heroHole = 2%nat →
  (length community ≤ 5)%nat →
  (5 - length community ≤ length deck)%nat →
  0 ≤ trialsForWorker →
  ∃ r, worker rng heroHole community deck numOpponents trialsForWorker
       = Some r ∧
       TrialsRun r = trialsForWorker ∧ tallied r = trialsForWorker.
Proof.
  intros Hhero Hcomm Hdeck Htw. unfold worker.
  destruct (workerLoop_spec (Z.to_nat trialsForWorker) rng heroHole community
              deck numOpponents (mkSimulationResult 0 0 0 0) Hhero Hcomm Hdeck)
    as (r & -> & Hruns & Htally).
  exists r. split; [done|]. unfold tallied in *. simpl in *. lia.
Qed.

Lemma addResult_comm (a b : SimulationResult) (final : SimulationResult) :
  addResult (addResult final a) b = addResult (addResult final b) a.
Proof. unfold addResult. simpl. f_equal; lia. Qed.

(** The sum of the partial results does not depend on the order in which
    the workers deliver them. *)
Lemma merge_perm (final : SimulationResult) (results results' : list SimulationResult) :
  results ≡ₚ results' →
  foldl addResult final results = foldl addResult final results'.
Proof.
  intros Hp. revert final.
  induction Hp as [|r l l' _ IH|a b l|l l' l'' _ IH _ IH']; intros final; simpl.
  - done.
  - apply IH.
  - by rewrite addResult_comm.
  - by rewrite IH, IH'.
Qed.

(** ** The deck after removing the known cards *)

Lemma usedCodes_spec heroHole community s :
  s ∈ usedCodes heroHole community ↔ s ∈ Card_Str <$> (heroHole ++ community).
Proof.
  unfold usedCodes.
  assert (∀ (l : list Card) (u : gset string),
            s ∈ foldl (λ used c, {[Card_Str c]} ∪ used) u l
            ↔ s ∈ u ∨ s ∈ Card_Str <$> l) as Hfold.
  { induction l as [|c l IH] using rev_ind; intros u.
    - simpl. rewrite elem_of_nil. tauto.
    - rewrite foldl_snoc, fmap_app, elem_of_union, elem_of_singleton, IH,
        elem_of_app. simpl. rewrite list_elem_of_singleton. tauto. }
  rewrite !Hfold, fmap_app, elem_of_app, elem_of_empty. tauto.
Qed.

Lemma FullDeck_codes_distinct : NoDup (Card_Str <$> FullDeck).
Proof.
  apply (bool_decide_unpack (NoDup (Card_Str <$> FullDeck))). by vm_compute.
Qed.

Lemma filtered_length heroHole community :
  (52 - length heroHole - length community
   ≤ length (filter (λ c, Card_Str c ∉ usedCodes heroHole community) FullDeck))%nat.
Proof.
  set (used := usedCodes heroHole community).
  pose proof (filter_app_complement (λ c, Card_Str c ∈ used) FullDeck) as Hp.
  apply Permutation_length in Hp. rewrite length_app in Hp.
  change (length FullDeck) with 52%nat in Hp.
  assert (length (filter (λ c, Card_Str c ∈ used) FullDeck)
          ≤ length (heroHole ++ community))%nat as Hle; [|rewrite length_app in Hle; lia].
  rewrite <- (length_fmap Card_Str (filter _ _)),
    <- (length_fmap Card_Str (heroHole ++ community)).
  apply submseteq_length, NoDup_submseteq.
  - apply (sublist_NoDup _ (Card_Str <$> FullDeck)).
    + apply FullDeck_codes_distinct.
    + apply fmap_sublist, sublist_filter.
  - intros s (c & -> & [Hc _]%list_elem_of_filter)%list_elem_of_fmap.
    by apply usedCodes_spec.
Qed.

(** ** The whole simulation *)

Lemma trialsFor_nonneg trials w : 0 < trials → 0 ≤ trialsFor trials w.
Proof.
  intros Hpos. unfold trialsFor, workerCount.
  assert (0 < (if trials <? 4 then trials else 4)) as Hw
    by (destruct (trials <? 4); lia).
  pose proof (Z.quot_pos trials _ ltac:(lia) Hw) as Hq.
  pose proof (Z.rem_bound_pos trials _ ltac:(lia) Hw) as Hr.
  set (q := trials ÷ _) in *. set (r := trials `rem` _) in *.
  clearbody q r. case_decide; lia.
Qed.

Lemma trialsFor_sum trials :
  0 < trials →
  foldr Z.add 0 (trialsFor trials <$> seq 0 (Z.to_nat (workerCount trials)))
  = trials.
Proof.
  intros Hpos. unfold trialsFor, workerCount.
  destruct (Z.ltb_spec trials 4).
  - assert (trials = 1 ∨ trials = 2 ∨ trials = 3) as [-> | [-> | ->]] by lia;
      reflexivity.
  - pose proof (Z.quot_rem' trials 4) as Hqr. simpl.
    set (q := trials ÷ 4) in *. set (r := trials `rem` 4) in *.
    clearbody q r. lia.
Qed.

Section Workers.
Context (seeds : nat → Rng) (heroHole community deck : list Card).
Context (numOpponents : Z) (share : nat → Z).
Hypothesis hero_two : length heroHole = 2%nat.
Hypothesis community_le : (length community ≤ 5)%nat.
Hypothesis deck_completes_board : (5 - length community ≤ length deck)%nat.
Hypothesis share_nonneg : ∀ w, 0 ≤ share w.

Lemma workers_spec (ws : list nat) :
  ∃ results,
    mapM (λ w, worker (seeds w) heroHole community deck numOpponents (share w))
      ws = Some results ∧
    Forall2 (λ w r, TrialsRun r = share w ∧ tallied r = share w) ws results.
Proof.
  induction ws as [|w ws (results & IH & Hall)].
  { exists []. split; [done | constructor]. }
  destruct (worker_spec (seeds w) heroHole community deck numOpponents
              (share w) hero_two community_le deck_completes_board
              (share_nonneg w)) as (r & Hr & Hruns & Htally).
  exists (r :: results). split; [|by constructor].
  cbn. rewrite Hr. cbn. by rewrite IH.
Qed.

End Workers.

Lemma merged_spec (share : nat → Z) (ws : list nat)
    (results : list SimulationResult) (final : SimulationResult) :
  Forall2 (λ w r, TrialsRun r = share w ∧ tallied r = share w) ws results →
  TrialsRun (foldl addResult final results)
    = TrialsRun final + foldr Z.add 0 (share <$> ws) ∧
  tallied (foldl addResult final results)
    = tallied final + foldr Z.add 0 (share <$> ws).
Proof.
  intros Hall. revert final.
  induction Hall as [|w r ws results [Hruns Htally] _ IH]; intros final; csimpl.
  { lia. }
  destruct (IH (addResult final r)) as [-> ->].
  unfold tallied, addResult in *. simpl. split; lia.
Qed.

(** C6: on valid inputs, and for every random source of every worker, the
    simulation returns a result in which the three tallies add up to the
    number of trials run, which is the number of trials requested; the
    shares of the workers add up to that number. *)
Theorem SimulateEquity_tallies (seeds : nat → Rng)
    (heroHole community : list Card) (numOpponents trials : Z) :
  length heroHole = 2%nat →
  validCommunity community →
  1 ≤ numOpponents →
  1 ≤ trials →
  foldr Z.add 0 (trialsFor trials <$> seq 0 (Z.to_nat (workerCount trials)))
    = trials ∧
  ∃ r, SimulateEquity seeds heroHole community numOpponents trials = Some r ∧
       HeroWins r + VillainWins r + Ties r = TrialsRun r ∧
       TrialsRun r = trials.
Proof.
  intros Hhero Hcomm Hopp Htrials.
  split; [apply trialsFor_sum; lia|].
  unfold SimulateEquity.
  rewrite decide_False by (intros Hne; by apply Hne).
  rewrite decide_False by (unfold validCommunity in Hcomm; lia).
  rewrite decide_False by lia. rewrite decide_False by lia.
  cbv zeta.
  set (filtered := filter _ FullDeck).
  assert (length community ≤ 5)%nat as Hle
    by (unfold validCommunity in Hcomm; lia).
  assert (5 - length community ≤ length filtered)%nat as Hdeck.
  { pose proof (filtered_length heroHole community). fold filtered in H. lia. }
  destruct (workers_spec seeds heroHole community filtered numOpponents
              (trialsFor trials) Hhero Hle Hdeck
              (λ w, trialsFor_nonneg trials w ltac:(lia))
              (seq 0 (Z.to_nat (workerCount trials))))
    as (results & -> & Hall).
  cbn. eexists. split; [done|].
  destruct (merged_spec _ _ _ (mkSimulationResult 0 0 0 0) Hall)
    as [Hruns Htally].
  rewrite trialsFor_sum in Hruns, Htally by lia.
  unfold tallied in Htally. simpl in *. lia.
Qed.

Lemma SimulateEquity_tallies_witness :
  let seeds := λ w : nat, [3; 1; 4; 1; 5; 9; 2; 6]%nat in
  let hero := [mkCard Hearts Ace "HA"; mkCard Spades King "SK"] in
  let flop := [mkCard Clubs Two "C2"; mkCard Clubs Seven "C7";
               mkCard Diamonds Jack "DJ"] in
  foldr Z.add 0 (trialsFor 6 <$> seq 0 (Z.to_nat (workerCount 6))) = 6 ∧
  ∃ r, SimulateEquity seeds hero flop 2 6 = Some r ∧
       HeroWins r + VillainWins r + Ties r = TrialsRun r ∧ TrialsRun r = 6.
Proof.
  intros seeds hero flop.
  apply (SimulateEquity_tallies seeds hero flop 2 6).
  - reflexivity.
  - right; left. reflexivity.
  - lia.
  - lia.
Defined.

(** C7: with valid hole cards, community cards and opponent count, a trial
    count of zero or less gives the all-zero result, not a failure. *)
Theorem SimulateEquity_no_trials (seeds : nat → Rng)
    (heroHole community : list Card) (numOpponents trials : Z) :
  length heroHole = 2%nat →
  validCommunity community →
  1 ≤ numOpponents →
  trials ≤ 0 →
  SimulateEquity seeds heroHole community numOpponents trials
  = Some (mkSimulationResult 0 0 0 0).
Proof.
  intros Hhero Hcomm Hopp Htrials. unfold SimulateEquity.
  rewrite decide_False by (intros Hne; by apply Hne).
  rewrite decide_False by (unfold validCommunity in Hcomm; lia).
  rewrite decide_False by lia. by rewrite decide_True.
Qed.

Lemma SimulateEquity_no_trials_witness :
  SimulateEquity (λ _, []) [mkCard Hearts Ace "HA"; mkCard Spades King "SK"]
    [] 3 (-5)
  = Some (mkSimulationResult 0 0 0 0).
Proof.
  apply SimulateEquity_no_trials.
  - reflexivity.
  - left. reflexivity.
  - lia.
  - lia.
Defined.

(** ** A deck too short for the opponents *)

Lemma Forall2_functional {A B : Type} (R : A → B → Prop) (l : list A)
    (k1 k2 : list B) :
  (∀ a b1 b2, R a b1 → R a b2 → b1 = b2) →
  Forall2 R l k1 → Forall2 R l k2 → k1 = k2.
Proof.
  intros Hfun H1. revert k2.
  induction H1 as [|a b1 l k1 Hab _ IH]; intros k2 H2; inv H2; [done|].
  f_equal; [by eapply Hfun | by apply IH].
Qed.

(** C8, as the code has it: when the shuffled deck completes the board but
    holds two cards for [k] opponents only, fewer than requested, no error is
    reported: the trial is decided as a trial against those [k] opponents,
    and a worker counts it in its tallies. *)
Theorem simulateOnce_short_deck (rng : Rng) (heroHole community deck : list Card)
    (numOpponents : Z) (k : nat) :
  length heroHole = 2%nat →
  (length community ≤ 5)%nat →
  (5 - length community + 2 * k ≤ length deck)%nat →
  (length deck < 5 - length community + 2 * k + 2)%nat →
  (k < Z.to_nat numOpponents)%nat →
  ∃ outcome rng',
    simulateOnce rng heroHole community deck numOpponents
      = Some (outcome, rng') ∧
    simulateOnce rng heroHole community deck (Z.of_nat k)
      = Some (outcome, rng') ∧
    ∃ r, worker rng heroHole community deck numOpponents 1 = Some r ∧
         TrialsRun r = 1 ∧ HeroWins r + VillainWins r + Ties r = 1.
Proof.
  intros Hhero Hcomm Hfits Hshort Hk.
  assert (5 - length community ≤ length deck)%nat as Hdeck by lia.
  destruct (simulateOnce_spec rng heroHole community deck numOpponents
              Hhero Hcomm Hdeck) as (hb1 & k1 & opps1 & Hh1 & Hk1 & Ho1 & Hs1).
  destruct (simulateOnce_spec rng heroHole community deck (Z.of_nat k)
              Hhero Hcomm Hdeck) as (hb2 & k2 & opps2 & Hh2 & Hk2 & Ho2 & Hs2).
  unfold opponentsDealt in Hk1, Hk2. rewrite Shuffle_length in Hk1, Hk2.
  assert (k1 = k) as -> by lia. assert (k2 = k) as -> by lia.
  assert (hb2 = hb1) as -> by congruence.
  assert (opps2 = opps1) as ->.
  { eapply Forall2_functional; [|exact Ho2|exact Ho1].
    unfold oppBestAt. congruence. }
  eexists _, _. do 2 (split; [done|]).
  destruct (worker_spec rng heroHole community deck numOpponents 1
              Hhero Hcomm Hdeck ltac:(lia)) as (r & Hr & Hruns & Htally).
  exists r. by unfold tallied in Htally.
Qed.

Lemma simulateOnce_short_deck_witness :
  ∃ outcome rng',
    simulateOnce [] knownHero knownBoard knownDeck 23 = Some (outcome, rng') ∧
    simulateOnce [] knownHero knownBoard knownDeck (Z.of_nat 22)
      = Some (outcome, rng') ∧
    ∃ r, worker [] knownHero knownBoard knownDeck 23 1 = Some r ∧
         TrialsRun r = 1 ∧ HeroWins r + VillainWins r + Ties r = 1.
Proof.
  apply simulateOnce_short_deck.
  - reflexivity.
  - simpl. lia.
  - vm_compute. lia.
  - vm_compute. lia.
  - vm_compute. lia.
Defined.

(** C8, as stated, fails: with 23 opponents and a complete board the 45
    remaining cards serve 22 opponents only, and yet the simulation reports
    no error and counts the trial. *)
Lemma SimulateEquity_short_deck_counted :
  length knownDeck = 45%nat ∧
  (length knownDeck < 5 - length knownBoard + 2 * 23)%nat ∧
  SimulateEquity (λ _, []) knownHero knownBoard 23 1
  = Some (mkSimulationResult 0 1 0 1).
Proof. by vm_compute. Qed.

(** ** Fixtures *)

(** C1: the four fixture hands, parsed from their codes, evaluate to a
    Straight Flush with kicker Ace; Four of a Kind with kickers Two, Seven;
    Two Pair with kickers Three, Two, Seven; and (the wheel) a Straight with
    kicker Five. *)
Theorem EvaluateBestHand_fixtures :
  (mapM ParseCard ["HA"; "HK"; "HQ"; "HJ"; "HT"; "S2"; "S3"]
     ≫= EvaluateBestHand) = Some (mkHandValue StraightFlush [Ace]) ∧
  (mapM ParseCard ["H2"; "D2"; "C2"; "S2"; "H5"; "H6"; "H7"]
     ≫= EvaluateBestHand) = Some (mkHandValue FourOfAKind [Two; Seven]) ∧
  (mapM ParseCard ["H2"; "D2"; "C3"; "S3"; "H5"; "D6"; "C7"]
     ≫= EvaluateBestHand) = Some (mkHandValue TwoPair [Three; Two; Seven]) ∧
  (mapM ParseCard ["HA"; "D2"; "C3"; "S4"; "H5"; "D9"; "CK"]
     ≫= EvaluateBestHand) = Some (mkHandValue Straight [Five]).
Proof. repeat split; vm_compute; reflexivity. Qed.

(** C4: [CompareHandValues] is a total order on hand values, those the
    classifier produces among them: a value compares equal to itself,
    swapping the arguments negates the result, and "not smaller" is
    transitive. *)
Theorem CompareHandValues_total_order (a b c : HandValue) :
  CompareHandValues a a = 0 ∧
  CompareHandValues a b = - CompareHandValues b a ∧
  (0 ≤ CompareHandValues a b → 0 ≤ CompareHandValues b c →
   0 ≤ CompareHandValues a c).
Proof.
  split; [apply CompareHandValues_refl|].
  split; [apply CompareHandValues_antisym | apply CompareHandValues_trans].
Qed.

Lemma CompareHandValues_total_order_witness :
  let a := mkHandValue FullHouse [King; Two] in
  let b := mkHandValue FullHouse [Queen; Ace] in
  let c := mkHandValue Flush [Ace; Jack; Nine; Four; Two] in
  0 ≤ CompareHandValues a c.
Proof.
  intros a b c.
  apply (CompareHandValues_total_order a b c); vm_compute; discriminate.
Defined.

Lemma evalCombo_at_spec (σ : Store) cards elems indexes hv :
  σ !! cards = Some elems →
  evalCombo elems indexes = Some hv →
  ∃ fresh, evalCombo_at σ cards indexes = Some (hv, σ ++ fresh).
Proof.
  intros Hcards. unfold evalCombo, evalCombo_at, evaluate5_at, alloc, evaluate5.
  rewrite Hcards. simpl.
  destruct (pick elems indexes) as [hand|]; [simpl|done].
  rewrite list_lookup_middle by done. simpl.
  intros ->. simpl. eexists [_].
  by rewrite insert_app_r_alt, Nat.sub_diag.
Qed.

Lemma bestLoop_at_spec fuel (σ : Store) cards elems indexes best hv :
  σ !! cards = Some elems →
  bestLoop fuel elems indexes best = Some hv →
  ∃ fresh, bestLoop_at fuel σ cards indexes best = Some (hv, σ ++ fresh).
Proof.
  revert σ indexes best.
  induction fuel as [|fuel IH]; intros σ indexes best Hcards; simpl; [done|].
  destruct (next indexes) as [indexes'|].
  - destruct (evalCombo elems indexes') as [hv'|] eqn:E; [simpl|done].
    destruct (evalCombo_at_spec σ cards elems indexes' hv' Hcards E)
      as [fresh1 ->].
    simpl. intros Hloop.
    destruct (IH (σ ++ fresh1) indexes' (better best hv')) as [fresh2 ->];
      [by apply lookup_app_l_Some | done |].
    exists (fresh1 ++ fresh2). by rewrite (assoc_L (++)).
  - intros [= ->]. exists []. by rewrite app_nil_r.
Qed.

(** C9: [EvaluateBestHand] leaves the seven cards it is given as they are,
    in the same order: the store after the call is the store before it
    followed by newly allocated arrays only. *)
Theorem EvaluateBestHand_keeps_input (σ : Store) (cards : nat)
    (elems : list Card) :
  σ !! cards = Some elems →
  length elems = 7%nat →
  ∃ hv σ' fresh,
    EvaluateBestHand_at σ cards = Some (hv, σ') ∧
    EvaluateBestHand elems = Some hv ∧
    σ' = σ ++ fresh ∧
    σ' !! cards = Some elems.
Proof.
  intros Hcards Hlen.
  destruct (EvaluateBestHand_is_Some elems Hlen) as [hv Hhv].
  unfold EvaluateBestHand_at. rewrite Hcards. cbn [mbind option_bind].
  pose proof Hhv as Hloop. unfold EvaluateBestHand in Hloop.
  rewrite decide_False in Hloop by (intros Hne; by apply Hne).
  rewrite decide_False by (intros Hne; by apply Hne).
  cbv zeta in *.
  destruct (evalCombo elems [0; 1; 2; 3; 4]%nat) as [best|] eqn:E; [|done].
  cbn [mbind option_bind] in Hloop.
  destruct (evalCombo_at_spec σ cards elems _ best Hcards E) as [fresh1 ->].
  cbn [mbind option_bind fst snd].
  destruct (bestLoop_at_spec 21 (σ ++ fresh1) cards elems
              [0; 1; 2; 3; 4]%nat best hv) as [fresh2 ->];
    [by apply lookup_app_l_Some | done |].
  exists hv, ((σ ++ fresh1) ++ fresh2), (fresh1 ++ fresh2).
  split; [done|]. split; [done|]. split; [by rewrite (assoc_L (++))|].
  by do 2 apply lookup_app_l_Some.
Qed.

Lemma EvaluateBestHand_keeps_input_witness :
  let elems := [mkCard Hearts Two "H2"; mkCard Diamonds Ace "DA";
                mkCard Clubs Seven "C7"; mkCard Spades Two "S2";
                mkCard Hearts King "HK"; mkCard Hearts Six "H6";
                mkCard Clubs Ace "CA"] in
  let σ : Store := [[mkCard Spades Three "S3"]; elems] in
  ∃ hv σ' fresh,
    EvaluateBestHand_at σ 1 = Some (hv, σ') ∧
    EvaluateBestHand elems = Some hv ∧
    σ' = σ ++ fresh ∧
    σ' !! 1%nat = Some elems.
Proof.
  intros elems σ.
  apply (EvaluateBestHand_keeps_input σ 1 elems); reflexivity.
Defined.

(** ** The order in which a map is visited does not matter *)

Lemma byCountThenRank_asym p q :
  byCountThenRank p q = true → byCountThenRank q p = false.
Proof.
  unfold byCountThenRank. repeat case_decide; try congruence;
    rewrite Z.ltb_lt, Z.ltb_ge; lia.
Qed.

(** Whatever the order in which the entries of [counts] are appended to
    [ps], the sorted [ps] is the same. *)
Lemma rankGroups_any_order cards (entries : list (Rank * Z)) :
  entries ≡ₚ map_to_list (rankCounts cards) →
  sortSlice byCountThenRank entries = rankGroups cards.
Proof.
  intros Hp. unfold rankGroups.
  assert (Transitive (λ p q : Rank * Z, byCountThenRank q p = false)).
  { intros p q r. unfold byCountThenRank.
    repeat case_decide; rewrite !Z.ltb_ge; lia. }
  apply (Sorted_unique_strong (λ p q, byCountThenRank q p = false)).
  - intros [r1 c1] [r2 c2] _ _. unfold byCountThenRank. simpl.
    repeat case_decide; rewrite !Z.ltb_ge; intros; f_equal; lia.
  - apply sortSlice_sorted, byCountThenRank_asym.
  - apply sortSlice_sorted, byCountThenRank_asym.
  - by rewrite !sortSlice_perm.
Qed.

Lemma occurrences_disjoint f k k' cards :
  k ≠ k' → (occurrences f k cards + occurrences f k' cards ≤ length cards)%nat.
Proof.
  intros Hne. unfold occurrences.
  induction cards as [|c cards IH]; [done|].
  rewrite !filter_cons. repeat case_decide; simpl; try lia; congruence.
Qed.

(** Fewer than ten cards hold at most one suit five times, so the suit
    reported does not depend on the order in which [count] is visited. *)
Lemma detectFlush_any_order cards (entries : list (Suit * Z)) :
  (length cards < 10)%nat →
  entries ≡ₚ map_to_list (suitCounts cards) →
  firstFlushSuit entries = detectFlush cards.
Proof.
  intros Hlen Hp. unfold detectFlush.
  assert (∀ s c, (s, c) ∈ map_to_list (suitCounts cards) →
                 c = Z.of_nat (occurrences Card_Suit s cards)) as Hocc.
  { intros s c. rewrite elem_of_map_to_list, suitCounts_lookup.
    case_decide; [done|]. by intros [= <-]. }
  destruct (firstFlushSuit entries) as [[] s] eqn:E1;
    destruct (firstFlushSuit (map_to_list (suitCounts cards))) as [[] s'] eqn:E2.
  - apply firstFlushSuit_true in E1 as (c & Hin & Hc).
    apply firstFlushSuit_true in E2 as (c' & Hin' & Hc').
    rewrite Hp in Hin. apply Hocc in Hin, Hin'.
    destruct (decide (s = s')) as [->|Hne]; [done|].
    pose proof (occurrences_disjoint Card_Suit s s' cards Hne). lia.
  - apply firstFlushSuit_true in E1 as (c & Hin & Hc).
    apply firstFlushSuit_false in E2 as [_ Hall].
    rewrite Hp in Hin. rewrite Forall_forall in Hall.
    apply Hall in Hin. simpl in Hin. lia.
  - apply firstFlushSuit_true in E2 as (c & Hin & Hc).
    apply firstFlushSuit_false in E1 as [_ Hall].
    rewrite <- Hp in Hin. rewrite Forall_forall in Hall.
    apply Hall in Hin. simpl in Hin. lia.
  - apply firstFlushSuit_false in E1 as [-> _].
    apply firstFlushSuit_false in E2 as [-> _]. done.
Qed.

(** * Further properties of the code *)

(** ** Card codes *)

Lemma parseRank_range ch r : parseRank ch = Some r → 2 ≤ r ≤ 14.
Proof.
  unfold parseRank. repeat case_decide; intros [= <-]; vm_compute;
    split; discriminate.
Qed.

Lemma parseSuit_range ch s : parseSuit ch = Some s → 0 ≤ s ≤ 3.
Proof.
  unfold parseSuit. repeat case_decide; intros [= <-]; vm_compute;
    split; discriminate.
Qed.

Lemma parseRank_rankChar ch r :
  parseRank ch = Some r → rankChar r = String ch EmptyString.
Proof.
  unfold parseRank. repeat case_decide; intros [= <-]; by subst.
Qed.

Lemma parseSuit_suitChar ch s :
  parseSuit ch = Some s → suitChar s = String ch EmptyString.
Proof.
  unfold parseSuit. repeat case_decide; intros [= <-]; by subst.
Qed.

Lemma ParseCard_inv (s : string) (c : Card) :
  ParseCard s = Some c →
  String.length s = 2%nat ∧
  Card_Str c = s ∧
  0 ≤ Card_Suit c ≤ 3 ∧ 2 ≤ Card_Rank c ≤ 14 ∧
  formatCard (Card_Suit c) (Card_Rank c) = s.
Proof.
  unfold ParseCard.
  destruct s as [|c0 [|c1 [|]]]; try done.
  destruct (parseRank c1) as [r|] eqn:Hr; [simpl|done].
  destruct (parseSuit c0) as [suit|] eqn:Hs; [simpl|done].
  intros [= <-]. simpl.
  split; [done|]. split; [done|].
  split; [by eapply parseSuit_range|]. split; [by eapply parseRank_range|].
  unfold formatCard.
  by rewrite (parseSuit_suitChar _ _ Hs), (parseRank_rankChar _ _ Hr).
Qed.

(** X1: a code that parses has two characters, its card records the code
    itself, has a suit among the four and a rank from Two to Ace, and
    formatting that suit and rank gives the code back. *)
Theorem ParseCard_formatCard (s : string) (c : Card) :
  ParseCard s = Some c →
  String.length s = 2%nat ∧
  Card_Str c = s ∧
  0 ≤ Card_Suit c ≤ 3 ∧ 2 ≤ Card_Rank c ≤ 14 ∧
  formatCard (Card_Suit c) (Card_Rank c) = s.
Proof. apply ParseCard_inv. Qed.

Lemma ParseCard_formatCard_witness :
  String.length "CT" = 2%nat ∧
  Card_Str (mkCard Clubs Ten "CT") = "CT" ∧
  0 ≤ Card_Suit (mkCard Clubs Ten "CT") ≤ 3 ∧
  2 ≤ Card_Rank (mkCard Clubs Ten "CT") ≤ 14 ∧
  formatCard (Card_Suit (mkCard Clubs Ten "CT"))
    (Card_Rank (mkCard Clubs Ten "CT")) = "CT".
Proof. apply ParseCard_formatCard. reflexivity. Defined.

(** X2: the code formatted from one of the four suits and a rank from Two
    to Ace parses to the card of that suit, rank and code. *)
Theorem formatCard_ParseCard (s : Suit) (r : Rank) :
  0 ≤ s ≤ 3 → 2 ≤ r ≤ 14 →
  ParseCard (formatCard s r) = Some (mkCard s r (formatCard s r)).
Proof.
  intros Hs Hr.
  assert (s = 0 ∨ s = 1 ∨ s = 2 ∨ s = 3) as Hs' by lia.
  assert (r = 2 ∨ r = 3 ∨ r = 4 ∨ r = 5 ∨ r = 6 ∨ r = 7 ∨ r = 8 ∨ r = 9 ∨
          r = 10 ∨ r = 11 ∨ r = 12 ∨ r = 13 ∨ r = 14) as Hr' by lia.
  destruct Hs' as [-> | [-> | [-> | ->]]];
    repeat (destruct Hr' as [-> | Hr']; [reflexivity|]); by subst.
Qed.

Lemma formatCard_ParseCard_witness :
  ParseCard (formatCard Spades Queen)
  = Some (mkCard Spades Queen (formatCard Spades Queen)).
Proof. apply formatCard_ParseCard; vm_compute; split; discriminate. Defined.

Lemma FullDeck_elem (c : Card) :
  length FullDeck = 52%nat ∧
  NoDup (Card_Str <$> FullDeck) ∧
  (c ∈ FullDeck ↔ ParseCard (Card_Str c) = Some c).
Proof.
  split; [done|]. split; [apply FullDeck_codes_distinct|]. split.
  - revert c. apply Forall_forall.
    apply (bool_decide_unpack
             (Forall (λ c, ParseCard (Card_Str c) = Some c) FullDeck)).
    by vm_compute.
  - intros Hc. apply ParseCard_inv in Hc as (_ & _ & Hs & Hr & Hf).
    destruct c as [s r str]. simpl in *. subst str.
    assert (s = 0 ∨ s = 1 ∨ s = 2 ∨ s = 3) as Hs' by lia.
    assert (r = 2 ∨ r = 3 ∨ r = 4 ∨ r = 5 ∨ r = 6 ∨ r = 7 ∨ r = 8 ∨ r = 9 ∨
            r = 10 ∨ r = 11 ∨ r = 12 ∨ r = 13 ∨ r = 14) as Hr' by lia.
    destruct Hs' as [-> | [-> | [-> | ->]]];
      repeat (destruct Hr' as [-> | Hr'];
              [apply (bool_decide_unpack _); by vm_compute|]);
      subst; apply (bool_decide_unpack _); by vm_compute.
Qed.

(** X3: the deck holds 52 cards with 52 different codes, and a card is in
    the deck exactly when its code parses to it. *)
Theorem FullDeck_parseable (c : Card) :
  length FullDeck = 52%nat ∧
  NoDup (Card_Str <$> FullDeck) ∧
  (c ∈ FullDeck ↔ ParseCard (Card_Str c) = Some c).
Proof. apply FullDeck_elem. Qed.

(** ** Straight detection *)

Lemma runFrom_spec cards t :
  runFrom (seenRanks cards) t = true ↔ hasRun cards t.
Proof.
  unfold runFrom, hasRun. rewrite forallb_forall. split.
  - intros Hall offset Hoff. apply seen_spec, Hall, list_elem_of_In.
    assert (offset = 0 ∨ offset = 1 ∨ offset = 2 ∨ offset = 3 ∨ offset = 4)
      as [-> | [-> | [-> | [-> | ->]]]] by lia;
      repeat first [apply list_elem_of_here | apply list_elem_of_further].
  - intros Hrun offset Hin%list_elem_of_In. apply seen_spec, Hrun.
    repeat (apply elem_of_cons in Hin as [->|Hin]; [lia|]).
    by apply not_elem_of_nil in Hin.
Qed.

Lemma wheel_seen cards :
  seen (seenRanks cards) Ace && seen (seenRanks cards) Two
  && seen (seenRanks cards) Three && seen (seenRanks cards) Four
  && seen (seenRanks cards) Five = true ↔ hasWheel cards.
Proof.
  unfold hasWheel. rewrite !andb_true_iff, !seen_spec. split.
  - intros [[[[? ?] ?] ?] ?] r Hr.
    repeat (apply elem_of_cons in Hr as [->|Hr]; [done|]).
    by apply not_elem_of_nil in Hr.
  - intros Hall.
    repeat split; apply Hall;
      repeat first [apply list_elem_of_here | apply list_elem_of_further].
Qed.

Lemma detectStraight_cases cards :
  (hasWheel cards ∧ detectStraight cards = (true, Five))
  ∨ (¬ hasWheel cards ∧
     ∃ t, 5 ≤ t ≤ 14 ∧ hasRun cards t ∧
          (∀ t', t < t' ≤ 14 → ¬ hasRun cards t') ∧
          detectStraight cards = (true, t))
  ∨ (¬ hasWheel cards ∧ (∀ t, 5 ≤ t ≤ 14 → ¬ hasRun cards t) ∧
     detectStraight cards = (false, Two)).
Proof.
  unfold detectStraight.
  destruct (seen _ Ace && _ && _ && _ && _) eqn:Hw.
  { left. split; [by apply wheel_seen | done]. }
  right.
  assert (¬ hasWheel cards) as Hnw
    by (rewrite <- wheel_seen; congruence).
  unfold straightStarts, Ace, King, Queen, Jack, Ten, Nine, Eight, Seven, Six,
    Five. simpl.
  repeat
    match goal with
    | |- context [runFrom (seenRanks cards) ?v] =>
        lazymatch goal with
        | _ : runFrom (seenRanks cards) v = _ |- _ => fail
        | _ => destruct (runFrom (seenRanks cards) v) eqn:?
        end;
        [ left; split; [done|]; exists v;
          split; [lia|]; split; [by apply runFrom_spec|]; split; [|done];
          intros t' Ht' Hrun%runFrom_spec;
          assert (t' = 6 ∨ t' = 7 ∨ t' = 8 ∨ t' = 9 ∨ t' = 10 ∨ t' = 11 ∨
                  t' = 12 ∨ t' = 13 ∨ t' = 14) as Hcases by lia;
          repeat (destruct Hcases as [-> | Hcases]; [congruence || lia|]);
          subst; congruence || lia
        | ]
    end.
  right. split; [done|]. split; [|done].
  intros t Ht Hrun%runFrom_spec.
  assert (t = 5 ∨ t = 6 ∨ t = 7 ∨ t = 8 ∨ t = 9 ∨ t = 10 ∨ t = 11 ∨
          t = 12 ∨ t = 13 ∨ t = 14) as Hcases by lia.
  repeat (destruct Hcases as [-> | Hcases]; [congruence|]).
  subst; congruence.
Qed.

(** X4: straight detection.  With the ranks of the wheel present the answer
    is a straight topped by Five; otherwise it is a straight topped by the
    highest rank from Five to Ace that ends a run of five present ranks, if
    there is one, and no straight (with rank Two) if there is none. *)
Theorem detectStraight_spec (cards : list Card) :
  (hasWheel cards → detectStraight cards = (true, Five)) ∧
  (¬ hasWheel cards →
   ∀ t, 5 ≤ t ≤ 14 → hasRun cards t →
        (∀ t', t < t' ≤ 14 → ¬ hasRun cards t') →
        detectStraight cards = (true, t)) ∧
  (¬ hasWheel cards → (∀ t, 5 ≤ t ≤ 14 → ¬ hasRun cards t) →
   detectStraight cards = (false, Two)).
Proof.
  destruct (detectStraight_cases cards)
    as [[Hw ->] | [(Hnw & t0 & Ht0 & Hrun0 & Hmax0 & ->) | (Hnw & Hnone & ->)]].
  - split; [done|]. split; intros Hnw; by destruct Hnw.
  - split; [done|]. split.
    + intros _ t Ht Hrun Hmax. f_equal.
      destruct (Z.lt_trichotomy t t0) as [Hlt | [-> | Hgt]]; [|done|].
      * destruct (Hmax t0); [lia | done].
      * destruct (Hmax0 t); [lia | done].
    + intros _ Hnone. by destruct (Hnone t0).
  - split; [done|]. split; [|done].
    intros _ t Ht Hrun. by destruct (Hnone t).
Qed.

Lemma detectStraight_spec_witness :
  let cards := [mkCard Hearts Nine "H9"; mkCard Clubs Six "C6";
                mkCard Spades Eight "S8"; mkCard Hearts Seven "H7";
                mkCard Diamonds Five "D5"; mkCard Diamonds Four "D4"] in
  detectStraight cards = (true, Nine).
Proof.
  intros cards. apply (detectStraight_spec cards).
  - intros Hw. specialize (Hw Ace ltac:(left)).
    revert Hw. apply (bool_decide_unpack (Ace ∉ ranksOnly cards)). by vm_compute.
  - vm_compute. split; discriminate.
  - apply runFrom_spec. reflexivity.
  - intros t' Ht' Hrun%runFrom_spec.
    assert (t' = 10 ∨ t' = 11 ∨ t' = 12 ∨ t' = 13 ∨ t' = 14)
      as [-> | [-> | [-> | [-> | ->]]]] by (unfold Nine in Ht'; lia);
      by vm_compute in Hrun.
Defined.

(** ** The rank groups of a hand *)

Lemma groupLe_count p q : groupLe p q → q.2 ≤ p.2.
Proof.
  unfold groupLe, byCountThenRank. case_decide; rewrite Z.ltb_ge; lia.
Qed.

Lemma groupLe_rank p q : groupLe p q → q.2 = p.2 → q.1 ≤ p.1.
Proof.
  unfold groupLe, byCountThenRank. case_decide; rewrite Z.ltb_ge; lia.
Qed.

Lemma rankGroups_strongly_sorted cards :
  StronglySorted groupLe (rankGroups cards).
Proof.
  apply Sorted_StronglySorted.
  - intros p q r. unfold groupLe, byCountThenRank.
    repeat case_decide; rewrite !Z.ltb_ge; lia.
  - apply sortSlice_sorted, byCountThenRank_asym.
Qed.

Lemma rankGroups_keys_distinct cards : NoDup (rankGroups cards).*1.
Proof.
  rewrite rankGroups_perm_entries. apply NoDup_fst_map_to_list.
Qed.

Lemma rankGroups_complete cards r :
  (0 < times cards r)%nat →
  (r, Z.of_nat (times cards r)) ∈ rankGroups cards.
Proof.
  intros Hpos. rewrite rankGroups_perm_entries, elem_of_map_to_list,
    rankCounts_lookup.
  unfold times in *. by rewrite decide_False by lia.
Qed.

(** the first group has the greatest count *)
Lemma rankGroups_first_max cards r n rest r' :
  rankGroups cards = (r, n) :: rest →
  n = Z.of_nat (times cards r) ∧ (times cards r' ≤ times cards r)%nat.
Proof.
  intros Hps.
  assert ((r, n) ∈ rankGroups cards) as Hin by (rewrite Hps; left).
  apply rankGroups_elem in Hin as [Hn Hpos]. split; [done|].
  destruct (decide (times cards r' = 0)%nat) as [|Hne]; [lia|].
  pose proof (rankGroups_complete cards r' ltac:(lia)) as Hin'.
  pose proof (rankGroups_strongly_sorted cards) as Hs.
  rewrite Hps in Hin', Hs. apply StronglySorted_inv in Hs as [_ Hall].
  apply elem_of_cons in Hin' as [[= -> _]|Hin']; [done|].
  rewrite Forall_forall in Hall. apply Hall, groupLe_count in Hin'.
  simpl in Hin'. unfold times in *. lia.
Qed.

(** the second group has the greatest count among the other ranks, and a
    lower rank than the first when the counts are equal *)
Lemma rankGroups_second_max cards r n r' n' rest r'' :
  rankGroups cards = (r, n) :: (r', n') :: rest →
  r' ≠ r ∧ n' = Z.of_nat (times cards r') ∧ (n' = n → r' < r) ∧
  (r'' ≠ r → (times cards r'' ≤ times cards r')%nat).
Proof.
  intros Hps.
  pose proof (rankGroups_keys_distinct cards) as Hnd.
  pose proof (rankGroups_strongly_sorted cards) as Hs.
  rewrite Hps in Hnd, Hs. simpl in Hnd.
  apply NoDup_cons in Hnd as [Hne _].
  assert (r' ≠ r) as Hrr by (intros ->; apply Hne; left).
  apply StronglySorted_inv in Hs as [Hs Hall1].
  apply StronglySorted_inv in Hs as [_ Hall2].
  assert ((r', n') ∈ rankGroups cards) as Hin
    by (rewrite Hps; right; left).
  apply rankGroups_elem in Hin as [Hn' Hpos].
  split; [done|]. split; [done|]. split.
  - intros Heq. apply Forall_cons_1 in Hall1 as [Hle _].
    apply groupLe_rank in Hle; simpl in *; lia.
  - intros Hne''.
    destruct (decide (times cards r'' = 0)%nat) as [|Hpos'']; [lia|].
    pose proof (rankGroups_complete cards r'' ltac:(lia)) as Hin''.
    rewrite Hps in Hin''.
    apply elem_of_cons in Hin'' as [[= -> _]|Hin'']; [done|].
    apply elem_of_cons in Hin'' as [[= -> _]|Hin'']; [done|].
    rewrite Forall_forall in Hall2. apply Hall2, groupLe_count in Hin''.
    simpl in Hin''. unfold times in *. lia.
Qed.

(** with a single group, no other rank is present *)
Lemma rankGroups_single cards r n r'' :
  rankGroups cards = [(r, n)] → r'' ≠ r → times cards r'' = 0%nat.
Proof.
  intros Hps Hne.
  destruct (decide (times cards r'' = 0)%nat) as [|Hpos]; [done|].
  pose proof (rankGroups_complete cards r'' ltac:(lia)) as Hin.
  rewrite Hps in Hin. apply list_elem_of_singleton in Hin. congruence.
Qed.

(** ** Kickers *)

Lemma highestDifferentRank_kept cards exclude :
  highestDifferentRank cards exclude =
  match ranksOnly (kept exclude cards) with
  | k :: _ => k
  | [] => Two
  end.
Proof.
  induction cards as [|c cards IH]; [done|].
  simpl. unfold kept, excluded. rewrite filter_cons.
  destruct (decide (Card_Rank c ∈ exclude)) as [Hin|Hin].
  - rewrite bool_decide_eq_true_2 by done.
    rewrite decide_False by (intros Hn; by apply Hn). exact IH.
  - rewrite bool_decide_eq_false_2 by done. by rewrite decide_True.
Qed.

Lemma kept_length2 a b cards :
  a ≠ b →
  length (kept [a; b] cards)
  = (length cards - times cards a - times cards b)%nat.
Proof.
  intros Hne. unfold kept, times, occurrences.
  induction cards as [|c cards IH]; [done|].
  pose proof (occurrences_le Card_Rank a cards) as Ha.
  pose proof (occurrences_disjoint Card_Rank a b cards Hne) as Hab.
  unfold occurrences in *.
  rewrite !filter_cons.
  destruct (decide (Card_Rank c = a)) as [->|Hca].
  - rewrite decide_False by (intros Hn; apply Hn; left).
    rewrite decide_False by done. simpl. lia.
  - destruct (decide (Card_Rank c = b)) as [->|Hcb].
    + rewrite decide_False by (intros Hn; apply Hn; right; left).
      simpl. lia.
    + rewrite decide_True.
      * simpl. lia.
      * intros [?|[?|?%not_elem_of_nil]%elem_of_cons]%elem_of_cons; done.
Qed.

Lemma kept_elem exclude cards c :
  c ∈ kept exclude cards ↔ (Card_Rank c ∉ exclude) ∧ c ∈ cards.
Proof.
  unfold kept. apply (list_elem_of_filter (λ c, Card_Rank c ∉ exclude)).
Qed.

Lemma times_pos cards c : c ∈ cards → (0 < times cards (Card_Rank c))%nat.
Proof. intros Hc. apply occurrences_pos. by apply list_elem_of_fmap_2. Qed.

Lemma times_filter (P : Card → Prop) `{!∀ c, Decision (P c)} cards r :
  (times (filter P cards) r ≤ times cards r)%nat.
Proof.
  unfold times, occurrences. induction cards as [|c cards IH]; [done|].
  rewrite (filter_cons P). destruct (decide (P c)).
  - rewrite !filter_cons. case_decide; simpl; lia.
  - rewrite filter_cons. case_decide; simpl; lia.
Qed.

Lemma times_perm cards cards' r :
  cards ≡ₚ cards' → times cards r = times cards' r.
Proof. apply occurrences_perm. Qed.

Lemma times_three cards a b c :
  a ≠ b → a ≠ c → b ≠ c →
  (times cards a + times cards b + times cards c ≤ length cards)%nat.
Proof.
  intros Hab Hac Hbc. unfold times, occurrences.
  induction cards as [|x cards IH]; [done|].
  rewrite !filter_cons. repeat case_decide; simpl; try lia; congruence.
Qed.

Lemma rankDescending_ranks cards :
  rankDescending cards →
  StronglySorted (λ x y : Z, y ≤ x) (ranksOnly cards).
Proof.
  intros Hs. eapply StronglySorted_fmap, Hs.
  intros a b. unfold byRankDesc. by rewrite Z.ltb_ge.
Qed.

(** ** The classifier reads a hand as the rules of poker do *)

Lemma straightTop_of_true cards t :
  detectStraight cards = (true, t) → straightTop cards t.
Proof.
  destruct (detectStraight_cases cards)
    as [[Hw ->] | [(_ & t0 & Ht0 & Hrun & _ & ->) | (_ & _ & ->)]];
    intros [= <-]; [by left | by right].
Qed.

Lemma noStraight_of_false cards t :
  detectStraight cards = (false, t) → ∀ t', ¬ straightTop cards t'.
Proof.
  destruct (detectStraight_cases cards)
    as [[Hw ->] | [(_ & t0 & _ & _ & _ & ->) | (Hnw & Hnone & ->)]];
    try done.
  intros _ t' [[Hw _] | [Ht' Hrun]]; [done | by destruct (Hnone t')].
Qed.

Lemma sameSuit_perm cards cards' :
  cards ≡ₚ cards' → sameSuit cards → sameSuit cards'.
Proof. intros Hp [s Hs]. exists s. by rewrite <- Hp. Qed.

Lemma straightTop_perm cards cards' t :
  cards ≡ₚ cards' → straightTop cards t → straightTop cards' t.
Proof.
  intros Hp. unfold straightTop, hasWheel, hasRun, ranksOnly.
  intros [[Hw ->] | [Ht Hrun]]; [left | right]; split; try done.
  - intros r Hr. rewrite <- Hp. by apply Hw.
  - intros offset Hoff. rewrite <- Hp. by apply Hrun.
Qed.

Lemma descendingRanks_perm cards cards' ks :
  cards ≡ₚ cards' → descendingRanks cards ks → descendingRanks cards' ks.
Proof.
  intros Hp [Hks Hs]. split; [|done]. unfold ranksOnly in *. by rewrite <- Hp.
Qed.

Lemma pokerHand_perm cards cards' hv :
  cards ≡ₚ cards' → pokerHand cards hv → pokerHand cards' hv.
Proof.
  intros Hp.
  assert (∀ t, ¬ straightTop cards t → ¬ straightTop cards' t) as Hns.
  { intros t Hn Ht. apply Hn. by eapply straightTop_perm. }
  assert (¬ sameSuit cards → ¬ sameSuit cards') as Hnf.
  { intros Hn Hs. apply Hn. by eapply sameSuit_perm. }
  destruct 1; econstructor;
    rewrite <- ?(times_perm _ _ _ Hp);
    eauto using sameSuit_perm, straightTop_perm, descendingRanks_perm;
    intros x; rewrite <- ?(times_perm _ _ _ Hp); auto.
Qed.

Lemma filterBySuit_all cards s :
  Forall (λ c, Card_Suit c = s) cards → filterBySuit cards s = cards.
Proof.
  unfold filterBySuit. induction 1 as [|c l Hc _ IH]; [done|].
  by rewrite filter_cons_True, IH.
Qed.

Lemma ranks_distinct cards :
  (∀ c, c ∈ cards → (times cards (Card_Rank c) ≤ 1)%nat) →
  NoDup (ranksOnly cards).
Proof.
  induction cards as [|c cards IH]; intros Hone; [constructor|].
  simpl. apply NoDup_cons. split.
  - intros Hin. apply occurrences_pos in Hin.
    specialize (Hone c ltac:(left)). unfold times, occurrences in *.
    rewrite filter_cons_True in Hone by done. simpl in Hone. lia.
  - apply IH. intros c' Hc'. specialize (Hone c' ltac:(by right)).
    unfold times, occurrences in *. rewrite filter_cons in Hone.
    case_decide; simpl in Hone; lia.
Qed.

Lemma kept_ranks_distinct cards r :
  (∀ r', r' ≠ r → (times cards r' ≤ 1)%nat) →
  NoDup (ranksOnly (kept [r] cards)).
Proof.
  intros Hone. apply ranks_distinct. intros c [Hc _]%kept_elem.
  etrans; [apply times_filter|]. apply Hone.
  intros Heq. apply Hc. rewrite Heq. left.
Qed.

Lemma kept_ranks_sorted cards exclude :
  rankDescending cards →
  StronglySorted (λ x y : Z, y ≤ x) (ranksOnly (kept exclude cards)).
Proof. intros Hs. by apply rankDescending_ranks, rankDescending_filter. Qed.

Lemma kept_times_one cards r c :
  (∀ r', r' ≠ r → (times cards r' ≤ 1)%nat) →
  c ∈ kept [r] cards → times cards (Card_Rank c) = 1%nat.
Proof.
  intros Hone [Hc Hin]%kept_elem.
  pose proof (times_pos cards c Hin).
  assert (Card_Rank c ≠ r) as Hne by (intros Heq; apply Hc; rewrite Heq; left).
  specialize (Hone _ Hne). lia.
Qed.

Lemma branch_four cards r :
  length cards = 5%nat → times cards r = 4%nat →
  times cards (highestDifferentRank cards [r]) = 1%nat.
Proof.
  intros Hlen Hr. rewrite highestDifferentRank_kept.
  pose proof (kept_length r cards) as Hk. fold (times cards r) in Hk.
  destruct (kept [r] cards) as [|c [|]] eqn:E; simpl in Hk; try lia.
  simpl. assert (c ∈ kept [r] cards) as [Hc Hin]%kept_elem by (rewrite E; left).
  pose proof (times_pos cards c Hin).
  assert (Card_Rank c ≠ r) as Hne by (intros Heq; apply Hc; rewrite Heq; left).
  pose proof (occurrences_disjoint Card_Rank _ _ cards Hne).
  unfold times in *. lia.
Qed.

Lemma branch_two_pair cards hi lo :
  length cards = 5%nat → times cards hi = 2%nat → times cards lo = 2%nat →
  hi ≠ lo →
  times cards (highestDifferentRank cards [hi; lo]) = 1%nat.
Proof.
  intros Hlen Hhi Hlo Hne. rewrite highestDifferentRank_kept.
  pose proof (kept_length2 hi lo cards Hne) as Hk.
  destruct (kept [hi; lo] cards) as [|c [|]] eqn:E; simpl in Hk; try lia.
  simpl.
  assert (c ∈ kept [hi; lo] cards) as [Hc Hin]%kept_elem by (rewrite E; left).
  pose proof (times_pos cards c Hin).
  assert (Card_Rank c ≠ hi) as Hne1 by (intros Heq; apply Hc; rewrite Heq; left).
  assert (Card_Rank c ≠ lo) as Hne2 by (intros Heq; apply Hc; rewrite Heq; right; left).
  pose proof (times_three cards hi lo (Card_Rank c)). lia.
Qed.

Lemma branch_trips cards r :
  length cards = 5%nat → rankDescending cards → times cards r = 3%nat →
  (∀ r', r' ≠ r → (times cards r' ≤ 1)%nat) →
  ∃ k1 k2, topKickersExcluding cards [r] 2 = Some (k1, k2) ∧
           times cards k1 = 1%nat ∧ times cards k2 = 1%nat ∧ k2 < k1.
Proof.
  intros Hlen Hs Hr Hone. unfold topKickersExcluding.
  rewrite collectKickers_take by (simpl; lia). simpl.
  pose proof (kept_length r cards) as Hk. fold (times cards r) in Hk.
  pose proof (kept_ranks_distinct cards r Hone) as Hnd.
  pose proof (kept_ranks_sorted cards [r] Hs) as Hsorted.
  pose proof (kept_times_one cards r) as Htimes.
  destruct (kept [r] cards) as [|c1 [|c2 [|]]] eqn:E; simpl in Hk; try lia.
  simpl in *. exists (Card_Rank c1), (Card_Rank c2).
  split; [done|].
  split; [apply Htimes; [done | left]|].
  split; [apply Htimes; [done | right; left]|].
  apply NoDup_cons in Hnd as [Hne _].
  apply StronglySorted_inv in Hsorted as [_ Hle].
  apply Forall_cons_1 in Hle as [Hle _].
  assert (Card_Rank c1 ≠ Card_Rank c2) by (intros Heq; apply Hne; rewrite Heq; left).
  lia.
Qed.

Lemma branch_pair cards r :
  length cards = 5%nat → rankDescending cards → times cards r = 2%nat →
  (∀ r', r' ≠ r → (times cards r' ≤ 1)%nat) →
  ∃ k1 k2 k3, topThreeKickersExcluding cards [r] = Some (k1, k2, k3) ∧
              times cards k1 = 1%nat ∧ times cards k2 = 1%nat ∧
              times cards k3 = 1%nat ∧ k2 < k1 ∧ k3 < k2.
Proof.
  intros Hlen Hs Hr Hone. unfold topThreeKickersExcluding.
  rewrite collectKickers_take by (simpl; lia). simpl.
  pose proof (kept_length r cards) as Hk. fold (times cards r) in Hk.
  pose proof (kept_ranks_distinct cards r Hone) as Hnd.
  pose proof (kept_ranks_sorted cards [r] Hs) as Hsorted.
  pose proof (kept_times_one cards r) as Htimes.
  destruct (kept [r] cards) as [|c1 [|c2 [|c3 [|]]]] eqn:E; simpl in Hk; try lia.
  simpl in *. exists (Card_Rank c1), (Card_Rank c2), (Card_Rank c3).
  split; [done|].
  split; [apply Htimes; [done | left]|].
  split; [apply Htimes; [done | right; left]|].
  split; [apply Htimes; [done | right; right; left]|].
  apply NoDup_cons in Hnd as [Hne1 Hnd]. apply NoDup_cons in Hnd as [Hne2 _].
  apply StronglySorted_inv in Hsorted as [Hsorted Hle1].
  apply StronglySorted_inv in Hsorted as [_ Hle2].
  apply Forall_cons_1 in Hle1 as [Hle1 _].
  apply Forall_cons_1 in Hle2 as [Hle2 _].
  assert (Card_Rank c1 ≠ Card_Rank c2) by (intros Heq; apply Hne1; rewrite Heq; left).
  assert (Card_Rank c2 ≠ Card_Rank c3) by (intros Heq; apply Hne2; rewrite Heq; left).
  lia.
Qed.

Lemma classify_pokerHand cards hv :
  length cards = 5%nat → rankDescending cards →
  (∀ r, (times cards r ≤ 4)%nat) →
  classify cards = Some hv → pokerHand cards hv.
Proof.
  intros Hlen Hs Hfour. unfold classify.
  destruct (detectFlush cards) as [isFlush flushSuit] eqn:HF.
  destruct (detectStraight cards) as [isStr topStr] eqn:HS.
  destruct isFlush.
  { apply detectFlush_true in HF; [|done].
    rewrite (filterBySuit_all _ _ HF), HS.
    destruct isStr; intros [= <-].
    - apply ph_straight_flush; [by exists flushSuit|].
      by apply straightTop_of_true.
    - apply ph_flush; [by exists flushSuit | by eapply noStraight_of_false|].
      split; [done | by apply rankDescending_ranks]. }
  assert (¬ sameSuit cards) as Hmixed.
  { intros [s Hsuit]. rewrite (detectFlush_one_suit cards s) in HF; done. }
  destruct isStr.
  { intros [= <-]. apply ph_straight; [done | by apply straightTop_of_true]. }
  pose proof (noStraight_of_false _ _ HS) as Hnostr.
  destruct (rankGroups cards) as [|[r n] rest] eqn:Hps; [done|]. simpl.
  pose proof (λ r', rankGroups_first_max cards r n rest r' Hps) as Hmax.
  destruct (Hmax r) as [Hn _].
  assert (∀ r', (times cards r' ≤ times cards r)%nat) as Hmax'
    by (intros r'; apply Hmax).
  clear Hmax.
  assert (∀ m, (times cards r ≤ m)%nat → rest = [] ∨
            (∃ r' n' rest', rest = (r', n') :: rest' ∧ (n' < 2)%Z) →
            ∀ r', r' ≠ r → (times cards r' ≤ 1)%nat) as Hothers.
  { intros m _ [-> | (r' & n' & rest' & -> & Hn')] r'' Hne.
    - rewrite (rankGroups_single cards r n r'' Hps Hne). lia.
    - destruct (rankGroups_second_max cards r n r' n' rest' r'' Hps)
        as (_ & Hn'' & _ & Hle). specialize (Hle Hne). lia. }
  case_decide as H4.
  { intros [= <-]. apply ph_four_of_a_kind; [done | done | lia |].
    apply branch_four; [done | lia]. }
  case_decide as Hfull.
  { destruct Hfull as (H3 & Hlen2 & Hsecond).
    destruct rest as [|[r' n'] rest']; [simpl in Hlen2; lia|]. simpl in *.
    intros [= <-].
    destruct (rankGroups_second_max cards r n r' n' rest' r' Hps)
      as (Hne & Hn' & _ & _).
    pose proof (occurrences_disjoint Card_Rank r r' cards
                  (λ Heq, Hne (eq_sym Heq))) as Hsum.
    unfold times in *.
    apply ph_full_house; [done | done | unfold times; lia | unfold times; lia]. }
  case_decide as H3.
  { assert (∀ r', r' ≠ r → (times cards r' ≤ 1)%nat) as Hone.
    { apply (Hothers 3%nat); [lia|].
      destruct rest as [|[r' n'] rest']; [by left|]. right.
      exists r', n', rest'. split; [done|].
      destruct (decide (n' < 2)); [done|].
      destruct Hfull. simpl. split; [done|]. split; lia. }
    destruct (branch_trips cards r Hlen Hs ltac:(lia) Hone)
      as (k1 & k2 & -> & Hk1 & Hk2 & Hlt).
    intros [= <-]. apply ph_three_of_a_kind; try done. lia. }
  case_decide as Htwo.
  { destruct Htwo as (H2 & Hlen2 & Hsecond).
    destruct rest as [|[r' n'] rest']; [simpl in Hlen2; lia|]. simpl in *.
    destruct (rankGroups_second_max cards r n r' n' rest' r' Hps)
      as (Hne & Hn' & Hlt & _).
    specialize (Hlt ltac:(lia)).
    destruct (Z.ltb_spec r r'); [lia|].
    intros [= <-].
    apply ph_two_pair; try done; try lia.
    apply branch_two_pair; [done | lia | lia | lia]. }
  case_decide as H2.
  { assert (∀ r', r' ≠ r → (times cards r' ≤ 1)%nat) as Hone.
    { apply (Hothers 2%nat); [lia|].
      destruct rest as [|[r' n'] rest']; [by left|]. right.
      exists r', n', rest'. split; [done|].
      destruct (rankGroups_second_max cards r n r' n' rest' r' Hps)
        as (_ & Hn' & _ & _).
      specialize (Hmax' r').
      destruct (decide (n' < 2)); [done|].
      destruct Htwo. simpl. split; [done|]. split; lia. }
    destruct (branch_pair cards r Hlen Hs ltac:(lia) Hone)
      as (k1 & k2 & k3 & -> & Hk1 & Hk2 & Hk3 & Hlt1 & Hlt2).
    intros [= <-]. apply ph_one_pair; try done. lia. }
  intros [= <-]. apply ph_high_card; [done | done | |].
  - intros r'. specialize (Hmax' r'). specialize (Hfour r).
    assert ((r, n) ∈ rankGroups cards) as Hin by (rewrite Hps; left).
    apply rankGroups_elem in Hin as [_ Hpos]. unfold times in *. lia.
  - split; [done | by apply rankDescending_ranks].
Qed.

(** X5: a hand of five cards, no rank held more than four times, is read
    as the rules of poker read it: the category is decided by one suit, a
    run of five ranks (the wheel topped by Five) and the multiplicities of
    the ranks, in that order of precedence, and the kickers are the ranks
    that break ties, from the most to the least significant. *)
Theorem evaluate5_pokerHand (cards : list Card) :
  length cards = 5%nat →
  (∀ r, (times cards r ≤ 4)%nat) →
  ∃ hv, evaluate5 cards = Some hv ∧ pokerHand cards hv.
Proof.
  intros Hlen Hfour.
  destruct (evaluate5_is_Some cards Hlen) as [hv Hhv].
  exists hv. split; [done|].
  pose proof (sortSlice_perm byRankDesc cards) as Hp.
  apply (pokerHand_perm _ _ _ Hp).
  apply classify_pokerHand.
  - by rewrite sortSlice_length.
  - apply sortSlice_rankDescending.
  - intros r. by rewrite (times_perm _ _ _ Hp).
  - exact Hhv.
Qed.

Lemma evaluate5_pokerHand_witness :
  let cards := [mkCard Hearts Nine "H9"; mkCard Clubs King "CK";
                mkCard Spades Nine "S9"; mkCard Hearts Two "H2";
                mkCard Diamonds King "DK"] in
  ∃ hv, evaluate5 cards = Some hv ∧ pokerHand cards hv.
Proof.
  intros cards. apply evaluate5_pokerHand.
  - reflexivity.
  - intros r. unfold times, occurrences, cards.
    rewrite !filter_cons, filter_nil. simpl.
    repeat case_decide; simpl; unfold Nine, King, Two in *; lia.
Defined.

(** ** Panics, order of the cards, and the slice after the call *)

(** X6: [evaluate5] never panics on five cards, and [EvaluateBestHand]
    panics exactly when it is not given seven cards. *)
Theorem evaluators_panic_only_on_size (cards : list Card) :
  (length cards = 5%nat → is_Some (evaluate5 cards)) ∧
  (EvaluateBestHand cards = None ↔ length cards ≠ 7%nat).
Proof.
  split; [apply evaluate5_is_Some|]. split.
  - intros Hnone Hlen.
    destruct (EvaluateBestHand_is_Some cards Hlen) as [hv Hhv]. congruence.
  - intros Hlen. unfold EvaluateBestHand. by rewrite decide_True.
Qed.



(** X8: when [evaluate5] returns, the slice it was given holds the same
    cards, arranged so that no card is followed by a card of higher rank. *)
Theorem evaluate5_sorts_its_argument (cards : list Card) :
  (evaluate5_inplace cards).2 ≡ₚ cards ∧
  StronglySorted (λ a b, Card_Rank b ≤ Card_Rank a) (evaluate5_inplace cards).2.
Proof.
  simpl. split; [apply sortSlice_perm|].
  pose proof (sortSlice_rankDescending cards) as Hs.
  unfold rankDescending in Hs.
  induction Hs as [|c l _ IH Hall]; constructor; [done|].
  eapply Forall_impl; [done|]. intros b. unfold byRankDesc.
  by rewrite Z.ltb_ge.
Qed.

(** X9: the value of a five-card hand has a category from High Card to
    Straight Flush and as many kickers as its category calls for: values of
    one category have kicker lists of one length. *)
Theorem evaluate5_kicker_count (cards : list Card) (hv : HandValue) :
  length cards = 5%nat → evaluate5 cards = Some hv →
  0 ≤ Category hv ≤ 8 ∧ length (Kickers hv) = kickerCount (Category hv).
Proof.
  intros Hlen. unfold evaluate5, evaluate5_inplace. simpl.
  assert (length (sortSlice byRankDesc cards) = 5%nat) as Hlen'
    by (by rewrite sortSlice_length).
  generalize dependent (sortSlice byRankDesc cards). clear cards Hlen.
  intros cards Hlen. unfold classify.
  destruct (detectFlush cards) as [isFlush flushSuit] eqn:HF.
  destruct (detectStraight cards) as [isStr topStr].
  destruct isFlush.
  { apply detectFlush_true in HF; [|done].
    rewrite (filterBySuit_all _ _ HF).
    destruct (detectStraight cards) as [[] ?]; intros [= <-]; simpl.
    - split; [done|]. reflexivity.
    - split; [done|]. unfold ranksOnly. by rewrite length_fmap, Hlen. }
  destruct isStr; [intros [= <-]; by split|].
  destruct (rankGroups cards !! 0%nat) as [p0|]; [simpl|done].
  unfold topKickersExcluding, topThreeKickersExcluding.
  repeat case_decide;
    repeat match goal with
           | |- context [?l !! ?i] => destruct (l !! i); simpl; [|done]
           end;
    try destruct (p0.1 <? _);
    intros [= <-]; simpl; (split; [done|]); try reflexivity.
  unfold ranksOnly. by rewrite length_fmap, Hlen.
Qed.

Lemma evaluate5_kicker_count_witness :
  let hv := mkHandValue TwoPair [King; Nine; Two] in
  0 ≤ Category hv ≤ 8 ∧ length (Kickers hv) = kickerCount (Category hv).
Proof.
  intros hv.
  apply (evaluate5_kicker_count
           [mkCard Hearts Nine "H9"; mkCard Clubs King "CK";
            mkCard Spades Nine "S9"; mkCard Hearts Two "H2";
            mkCard Diamonds King "DK"]); reflexivity.
Defined.

(** ** Best of seven is the best of every five *)

Lemma combs_sublist {A : Type} (k : nat) (l h : list A) :
  h ∈ combs k l ↔ h `sublist_of` l ∧ length h = k.
Proof.
  revert k h. induction l as [|x l IH]; intros k h.
  - destruct k; simpl.
    + rewrite list_elem_of_singleton, sublist_nil_r.
      split; [by intros -> | by intros [-> _]].
    + rewrite elem_of_nil, sublist_nil_r. split; [done | by intros [-> ?]].
  - destruct k as [|k].
    + rewrite combs_0, list_elem_of_singleton. split.
      * intros ->. split; [apply sublist_nil_l | done].
      * intros [_ Hlen]. by destruct h.
    + simpl. rewrite elem_of_app, list_elem_of_fmap, sublist_cons_r. split.
      * intros [(h' & -> & [Hsub Hlen]%IH) | [Hsub Hlen]%IH].
        -- split; [right; eauto | simpl; lia].
        -- split; [by left | done].
      * intros [[Hsub | (h' & -> & Hsub)] Hlen].
        -- right. by apply IH.
        -- left. exists h'. split; [done|]. apply IH.
           split; [done | simpl in Hlen; lia].
Qed.

(** X10: the value returned for seven cards is the value of five of them,
    taken in their order, and no five of the seven cards, in any order,
    have a greater value. *)
Theorem EvaluateBestHand_is_the_best (cards : list Card) (hv : HandValue) :
  EvaluateBestHand cards = Some hv →
  (∃ hand, hand `sublist_of` cards ∧ length hand = 5%nat ∧
           evaluate5 hand = Some hv) ∧
  (∀ hand hv', hand ⊆+ cards → length hand = 5%nat →
               evaluate5 hand = Some hv' → 0 ≤ CompareHandValues hv hv').
Proof.
  intros Hbest.
  assert (length cards = 7%nat) as Hlen.
  { destruct (decide (length cards = 7%nat)) as [|Hne]; [done|].
    unfold EvaluateBestHand in Hbest. by rewrite decide_True in Hbest. }
  rewrite EvaluateBestHand_combs in Hbest by done. unfold bestOf in Hbest.
  destruct (mapM id (evaluate5 <$> combs 5 cards)) as [hvs|] eqn:E;
    [simpl in Hbest|done].
  destruct hvs as [|h t]; [done|]. injection Hbest as <-.
  apply mapM_Some_1, Forall2_fmap_l in E.
  destruct (foldl_better_max h t) as [Hin Hmax].
  split.
  - apply list_elem_of_lookup in Hin as [i Hi].
    destruct (Forall2_lookup_r _ _ _ _ _ E Hi) as (hand & Hhand & Hev).
    apply list_elem_of_lookup_2, combs_sublist in Hhand as [Hsub Hl].
    exists hand. by repeat split.
  - intros hand hv' Hsub Hl Hev.
    apply submseteq_sublist_r in Hsub as (hand' & Hp & Hsub).
    assert (hand' ∈ combs 5 cards) as Hc.
    { apply combs_sublist. split; [done | by rewrite <- Hp]. }
    apply list_elem_of_lookup in Hc as [i Hi].
    destruct (Forall2_lookup_l _ _ _ _ _ E Hi) as (hv'' & Hhv'' & Hev'').
    simpl in Hev''. rewrite <- (evaluate5_perm _ _ Hp), Hev in Hev''.
    injection Hev'' as <-.
    apply Hmax. by eapply list_elem_of_lookup_2.
Qed.

Lemma EvaluateBestHand_is_the_best_witness :
  let cards := [mkCard Hearts Two "H2"; mkCard Diamonds Ace "DA";
                mkCard Clubs Seven "C7"; mkCard Spades Two "S2";
                mkCard Hearts King "HK"; mkCard Hearts Six "H6";
                mkCard Clubs Ace "CA"] in
  let hv := mkHandValue TwoPair [Ace; Two; King] in
  (∃ hand, hand `sublist_of` cards ∧ length hand = 5%nat ∧
           evaluate5 hand = Some hv) ∧
  (∀ hand hv', hand ⊆+ cards → length hand = 5%nat →
               evaluate5 hand = Some hv' → 0 ≤ CompareHandValues hv hv').
Proof.
  intros cards hv. apply EvaluateBestHand_is_the_best. by vm_compute.
Defined.

(** X11: the comparator answers -1, 0 or 1, and 0 only for two values with
    the same category and the same kickers. *)
Theorem CompareHandValues_sign (a b : HandValue) :
  (CompareHandValues a b = -1 ∨ CompareHandValues a b = 0 ∨
   CompareHandValues a b = 1) ∧
  (CompareHandValues a b = 0 ↔ a = b).
Proof.
  split.
  - unfold CompareHandValues. case_decide; [destruct (_ <? _); auto|].
    generalize (Kickers b). induction (Kickers a) as [|x ka IH];
      intros [|y kb]; simpl; auto.
    destruct (y <? x); auto. destruct (x <? y); auto.
  - split; [apply CompareHandValues_eq|].
    intros ->. apply CompareHandValues_refl.
Qed.

(** ** The deck of a simulation *)

(** X12: the deck dealt from in a simulation holds exactly the cards of the
    full deck whose code is not the code of a hole or community card, each
    once; when the known cards have different codes, all codes of the deck,
    it holds 52 cards less their number. *)
Theorem remainingDeck_spec (heroHole community : list Card) :
  (∀ c, c ∈ remainingDeck heroHole community ↔
        c ∈ FullDeck ∧ Card_Str c ∉ Card_Str <$> (heroHole ++ community)) ∧
  NoDup (Card_Str <$> remainingDeck heroHole community) ∧
  (NoDup (Card_Str <$> (heroHole ++ community)) →
   (∀ c, c ∈ heroHole ++ community → Card_Str c ∈ Card_Str <$> FullDeck) →
   length (remainingDeck heroHole community)
   = (52 - length (heroHole ++ community))%nat).
Proof.
  unfold remainingDeck.
  set (used := usedCodes heroHole community).
  set (known := heroHole ++ community).
  split; [|split].
  - intros c. rewrite list_elem_of_filter.
    unfold used. rewrite usedCodes_spec. tauto.
  - apply (sublist_NoDup _ (Card_Str <$> FullDeck)).
    + apply FullDeck_codes_distinct.
    + apply fmap_sublist, sublist_filter.
  - intros Hnd Hvalid.
    pose proof (filter_app_complement (λ c, Card_Str c ∈ used) FullDeck) as Hp.
    apply Permutation_length in Hp. rewrite length_app in Hp.
    change (length FullDeck) with 52%nat in Hp.
    assert (Card_Str <$> filter (λ c, Card_Str c ∈ used) FullDeck
            ≡ₚ Card_Str <$> known) as Hsame.
    { apply NoDup_Permutation; [|done|].
      - apply (sublist_NoDup _ (Card_Str <$> FullDeck)).
        + apply FullDeck_codes_distinct.
        + apply fmap_sublist, sublist_filter.
      - intros s. split.
        + intros (c & -> & [Hc _]%list_elem_of_filter)%list_elem_of_fmap.
          by apply usedCodes_spec.
        + intros Hs. pose proof Hs as (c & -> & Hc)%list_elem_of_fmap.
          apply Hvalid in Hc as (c' & Heq & Hc')%list_elem_of_fmap.
          apply list_elem_of_fmap. exists c'. split; [done|].
          apply list_elem_of_filter. split; [|done].
          apply usedCodes_spec. by rewrite <- Heq. }
    apply Permutation_length in Hsame. rewrite !length_fmap in Hsame. lia.
Qed.

Lemma remainingDeck_spec_witness :
  length (remainingDeck knownHero knownBoard)
  = (52 - length (knownHero ++ knownBoard))%nat.
Proof.
  apply (remainingDeck_spec knownHero knownBoard).
  - apply (bool_decide_unpack _). by vm_compute.
  - apply Forall_forall.
    apply (bool_decide_unpack
             (Forall (λ c, Card_Str c ∈ Card_Str <$> FullDeck)
                (knownHero ++ knownBoard))).
    by vm_compute.
Defined.

(** ** Results of a simulation *)

Lemma workerLoop_nonNegative n rng heroHole community deck numOpponents local r :
  workerLoop n rng heroHole community deck numOpponents local = Some r →
  nonNegative local → nonNegative r.
Proof.
  revert rng local. induction n as [|n IH]; intros rng local; simpl.
  { by intros [= <-]. }
  destruct (simulateOnce rng heroHole community deck numOpponents)
    as [[[[heroWin villainWin] tie] rng']|]; [simpl|done].
  intros Hloop Hlocal. apply IH in Hloop; [done|].
  unfold nonNegative in *.
  destruct heroWin, villainWin, tie; simpl; lia.
Qed.

Lemma addResult_nonNegative final r :
  nonNegative final → nonNegative r → nonNegative (addResult final r).
Proof. unfold nonNegative, addResult. simpl. lia. Qed.

Lemma merged_nonNegative results final :
  nonNegative final → Forall nonNegative results →
  nonNegative (foldl addResult final results).
Proof.
  intros Hfinal Hall. revert final Hfinal.
  induction Hall as [|r results Hr _ IH]; intros final Hfinal; [done|].
  simpl. by apply IH, addResult_nonNegative.
Qed.

Lemma SimulateEquity_run seeds heroHole community numOpponents trials :
  length heroHole = 2%nat → validCommunity community →
  1 ≤ numOpponents → 1 ≤ trials →
  ∃ results,
    SimulateEquity seeds heroHole community numOpponents trials
      = Some (foldl addResult (mkSimulationResult 0 0 0 0) results) ∧
    mapM (λ w, worker (seeds w) heroHole community
                 (remainingDeck heroHole community) numOpponents
                 (trialsFor trials w))
      (seq 0 (Z.to_nat (workerCount trials))) = Some results ∧
    Forall2 (λ w r, TrialsRun r = trialsFor trials w ∧
                    tallied r = trialsFor trials w)
      (seq 0 (Z.to_nat (workerCount trials))) results.
Proof.
  intros Hhero Hcomm Hopp Htrials. unfold SimulateEquity.
  rewrite decide_False by (intros Hne; by apply Hne).
  rewrite decide_False by (unfold validCommunity in Hcomm; lia).
  rewrite decide_False by lia. rewrite decide_False by lia.
  cbv zeta. fold (remainingDeck heroHole community).
  assert (length community ≤ 5)%nat as Hle
    by (unfold validCommunity in Hcomm; lia).
  assert (5 - length community ≤ length (remainingDeck heroHole community))%nat
    as Hdeck.
  { pose proof (filtered_length heroHole community) as Hf.
    fold (remainingDeck heroHole community) in Hf. lia. }
  destruct (workers_spec seeds heroHole community
              (remainingDeck heroHole community) numOpponents
              (trialsFor trials) Hhero Hle Hdeck
              (λ w, trialsFor_nonneg trials w ltac:(lia))
              (seq 0 (Z.to_nat (workerCount trials))))
    as (results & Hres & Hall).
  exists results. rewrite Hres. by cbn.
Qed.

Lemma SimulateEquity_invalid seeds heroHole community numOpponents trials :
  length heroHole ≠ 2%nat ∨ ¬ validCommunity community ∨ numOpponents < 1 →
  SimulateEquity seeds heroHole community numOpponents trials = None.
Proof.
  unfold SimulateEquity, validCommunity.
  intros [Hhero | [Hcomm | Hopp]].
  - by rewrite decide_True.
  - case_decide; [done|]. case_decide; [done | lia].
  - do 2 (case_decide; [done|]). case_decide; [done | lia].
Qed.

(** X13: [SimulateEquity] panics exactly when it is not given two hole
    cards, or not 0, 3, 4 or 5 community cards, or less than one opponent;
    no trial it runs fails. *)
Theorem SimulateEquity_panics_iff (seeds : nat → Rng)
    (heroHole community : list Card) (numOpponents trials : Z) :
  SimulateEquity seeds heroHole community numOpponents trials = None ↔
  length heroHole ≠ 2%nat ∨ ¬ validCommunity community ∨ numOpponents < 1.
Proof.
  split.
  - intros Hnone.
    destruct (decide (length heroHole = 2%nat)) as [Hhero|]; [|by left].
    destruct (decide (validCommunity community)) as [Hcomm|];
      [|by right; left].
    destruct (decide (numOpponents < 1)) as [|Hopp]; [by right; right|].
    exfalso. destruct (decide (trials ≤ 0)) as [Hzero|Hpos].
    + unfold SimulateEquity in Hnone.
      rewrite decide_False in Hnone by (intros Hne; by apply Hne).
      rewrite decide_False in Hnone by (unfold validCommunity in Hcomm; lia).
      rewrite decide_False in Hnone by lia.
      by rewrite decide_True in Hnone.
    + destruct (SimulateEquity_run seeds heroHole community numOpponents
                  trials Hhero Hcomm ltac:(lia) ltac:(lia))
        as (results & Hres & _). congruence.
  - apply SimulateEquity_invalid.
Qed.

(** X14: in every result of a simulation no tally is negative, the three
    tallies add up to the trials run, and the trials run are the trials
    requested, none if zero or less were requested. *)
Theorem SimulateEquity_result_bounds (seeds : nat → Rng)
    (heroHole community : list Card) (numOpponents trials : Z)
    (r : SimulationResult) :
  SimulateEquity seeds heroHole community numOpponents trials = Some r →
  0 ≤ HeroWins r ∧ 0 ≤ VillainWins r ∧ 0 ≤ Ties r ∧
  HeroWins r + VillainWins r + Ties r = TrialsRun r ∧
  TrialsRun r = Z.max 0 trials.
Proof.
  intros Hsim.
  assert (length heroHole = 2%nat ∧ validCommunity community ∧
          1 ≤ numOpponents) as (Hhero & Hcomm & Hopp).
  { destruct (decide (length heroHole = 2%nat)) as [|Hn];
      [|rewrite SimulateEquity_invalid in Hsim;
         [done | by left]].
    destruct (decide (validCommunity community)) as [|Hn];
      [|rewrite SimulateEquity_invalid in Hsim;
         [done | by right; left]].
    destruct (decide (numOpponents < 1)) as [Hn|];
      [rewrite SimulateEquity_invalid in Hsim;
         [done | by right; right]|].
    repeat split; [done..|lia]. }
  destruct (decide (trials ≤ 0)) as [Hzero|Hpos].
  { unfold SimulateEquity in Hsim.
    rewrite decide_False in Hsim by (intros Hne; by apply Hne).
    rewrite decide_False in Hsim by (unfold validCommunity in Hcomm; lia).
    rewrite decide_False in Hsim by lia.
    rewrite decide_True in Hsim by done. injection Hsim as <-. simpl. lia. }
  destruct (SimulateEquity_run seeds heroHole community numOpponents trials
              Hhero Hcomm Hopp ltac:(lia)) as (results & Hres & Hmap & Hall).
  rewrite Hres in Hsim. injection Hsim as <-.
  destruct (merged_spec _ _ _ (mkSimulationResult 0 0 0 0) Hall)
    as [Hruns Htally].
  rewrite trialsFor_sum in Hruns, Htally by lia.
  assert (nonNegative (foldl addResult (mkSimulationResult 0 0 0 0) results))
    as (? & ? & ? & ?).
  { apply merged_nonNegative; [unfold nonNegative; simpl; lia|].
    apply mapM_Some_1 in Hmap. apply Forall_forall. intros r Hr.
    apply list_elem_of_lookup in Hr as [i Hi].
    destruct (Forall2_lookup_r _ _ _ _ _ Hmap Hi) as (w & _ & Hw).
    unfold worker in Hw. eapply workerLoop_nonNegative; [exact Hw|].
    unfold nonNegative. simpl. lia. }
  unfold tallied in Htally. simpl in *. lia.
Qed.

Lemma SimulateEquity_result_bounds_witness :
  let r := mkSimulationResult 0 1 0 1 in
  0 ≤ HeroWins r ∧ 0 ≤ VillainWins r ∧ 0 ≤ Ties r ∧
  HeroWins r + VillainWins r + Ties r = TrialsRun r ∧
  TrialsRun r = Z.max 0 1.
Proof.
  intros r.
  apply (SimulateEquity_result_bounds (λ _, []) knownHero knownBoard 23 1).
  by vm_compute.
Defined.

(** X15: the sum of the partial results of the workers is the same in
    whatever order the orchestrator receives them. *)
Theorem aggregation_order_irrelevant (final : SimulationResult)
    (results results' : list SimulationResult) :
  results ≡ₚ results' →
  foldl addResult final results = foldl addResult final results'.
Proof. apply merge_perm. Qed.

Lemma aggregation_order_irrelevant_witness :
  foldl addResult (mkSimulationResult 0 0 0 0)
    [mkSimulationResult 1 2 3 6; mkSimulationResult 4 0 1 5]
  = foldl addResult (mkSimulationResult 0 0 0 0)
      [mkSimulationResult 4 0 1 5; mkSimulationResult 1 2 3 6].
Proof. apply aggregation_order_irrelevant. apply Permutation_swap. Defined.

(** ** Every kicker is the rank of a card of the hand *)

Lemma straightTop_present cards t : straightTop cards t → t ∈ ranksOnly cards.
Proof.
  intros [[Hw ->] | [_ Hrun]].
  - apply Hw. repeat first [apply list_elem_of_here | apply list_elem_of_further].
  - replace t with (t - 0) by lia. apply Hrun. lia.
Qed.

Lemma kept_ranks_present cards exclude k :
  k ∈ ranksOnly (kept exclude cards) → k ∈ ranksOnly cards.
Proof.
  unfold ranksOnly.
  intros (c & -> & [_ Hc]%kept_elem)%list_elem_of_fmap.
  by apply list_elem_of_fmap_2.
Qed.

Lemma collectKickers_present cards exclude n i k :
  (0 < n)%nat →
  collectKickers cards exclude n [] !! i = Some k → k ∈ ranksOnly cards.
Proof.
  intros Hn. rewrite collectKickers_take by (simpl; lia). simpl.
  intros Hk%list_elem_of_lookup_2%subseteq_take.
  by eapply kept_ranks_present.
Qed.

Lemma rankGroups_present cards r n :
  (r, n) ∈ rankGroups cards → r ∈ ranksOnly cards.
Proof.
  intros [Hn Hpos]%rankGroups_elem. apply occurrences_pos. lia.
Qed.

Lemma highestDifferentRank_present cards exclude :
  kept exclude cards ≠ [] →
  highestDifferentRank cards exclude ∈ ranksOnly cards.
Proof.
  intros Hne. rewrite highestDifferentRank_kept.
  destruct (kept exclude cards) as [|c l] eqn:E; [done|]. simpl.
  apply (kept_ranks_present cards exclude). rewrite E. left.
Qed.

Lemma classify_kickers_present cards hv k :
  length cards = 5%nat → classify cards = Some hv →
  k ∈ Kickers hv → k ∈ ranksOnly cards.
Proof.
  intros Hlen. unfold classify.
  destruct (detectFlush cards) as [isFlush flushSuit] eqn:HF.
  destruct (detectStraight cards) as [isStr topStr] eqn:HS.
  destruct isFlush.
  { apply detectFlush_true in HF; [|done].
    rewrite (filterBySuit_all _ _ HF), HS.
    destruct isStr; intros [= <-]; simpl; [|done].
    intros ->%list_elem_of_singleton.
    by apply straightTop_present, straightTop_of_true. }
  destruct isStr.
  { intros [= <-]. simpl. intros ->%list_elem_of_singleton.
    by apply straightTop_present, straightTop_of_true. }
  destruct (rankGroups cards) as [|[r n] rest] eqn:Hps; [done|]. simpl.
  assert (r ∈ ranksOnly cards) as Hr.
  { apply (rankGroups_present cards r n). rewrite Hps. left. }
  pose proof (rankGroups_first_max cards r n rest r Hps) as [Hn _].
  assert (∀ r' n' rest', rest = (r', n') :: rest' →
            r' ∈ ranksOnly cards ∧ r' ≠ r ∧ n' = Z.of_nat (times cards r'))
    as Hsecond.
  { intros r' n' rest' ->.
    destruct (rankGroups_second_max cards r n r' n' rest' r' Hps)
      as (Hne & Hn' & _ & _).
    split; [|done]. apply (rankGroups_present cards r' n').
    rewrite Hps. right. left. }
  unfold topKickersExcluding, topThreeKickersExcluding.
  case_decide as H4.
  { intros [= <-]. simpl.
    intros [->|[->|?%not_elem_of_nil]%elem_of_cons]%elem_of_cons; try done.
    apply highestDifferentRank_present. intros Hnil.
    pose proof (kept_length r cards) as Hk. rewrite Hnil in Hk.
    unfold times in *. simpl in Hk. lia. }
  case_decide as Hfull.
  { destruct rest as [|[r' n'] rest']; [simpl in Hfull; lia|]. simpl.
    destruct (Hsecond r' n' rest' eq_refl) as (Hr' & _ & _).
    intros [= <-]. simpl.
    intros [->|[->|?%not_elem_of_nil]%elem_of_cons]%elem_of_cons; done. }
  case_decide as H3.
  { destruct (collectKickers cards [r] 2 [] !! 0%nat) as [k1|] eqn:E1;
      [simpl|done].
    destruct (collectKickers cards [r] 2 [] !! 1%nat) as [k2|] eqn:E2;
      [simpl|done].
    apply collectKickers_present in E1, E2; try lia.
    intros [= <-]. simpl.
    intros [->|[->|[->|?%not_elem_of_nil]%elem_of_cons]%elem_of_cons]%elem_of_cons;
      done. }
  case_decide as Htwo.
  { destruct rest as [|[r' n'] rest']; [simpl in Htwo; lia|]. simpl in *.
    destruct (Hsecond r' n' rest' eq_refl) as (Hr' & Hne & Hn').
    assert (kept [r; r'] cards ≠ [] ∧ kept [r'; r] cards ≠ []) as [Hk1 Hk2].
    { split; intros Hnil.
      - pose proof (kept_length2 r r' cards ltac:(done)) as Hk.
        rewrite Hnil in Hk. simpl in Hk. unfold times in *. lia.
      - pose proof (kept_length2 r' r cards ltac:(done)) as Hk.
        rewrite Hnil in Hk. simpl in Hk. unfold times in *. lia. }
    destruct (r <? r'); intros [= <-]; simpl;
      intros [->|[->|[->|?%not_elem_of_nil]%elem_of_cons]%elem_of_cons]%elem_of_cons;
      try done; by apply highestDifferentRank_present. }
  case_decide as H2.
  { destruct (collectKickers cards [r] 3 [] !! 0%nat) as [k1|] eqn:E1;
      [simpl|done].
    destruct (collectKickers cards [r] 3 [] !! 1%nat) as [k2|] eqn:E2;
      [simpl|done].
    destruct (collectKickers cards [r] 3 [] !! 2%nat) as [k3|] eqn:E3;
      [simpl|done].
    apply collectKickers_present in E1, E2, E3; try lia.
    intros [= <-]. simpl.
    intros [->|[->|[->|[->|?%not_elem_of_nil]%elem_of_cons]%elem_of_cons]%elem_of_cons]%elem_of_cons;
      done. }
  by intros [= <-].
Qed.

(** X16: each kicker of the value of a five-card hand is the rank of one of
    the five cards; in particular no kicker is a default rank. *)
Theorem evaluate5_kickers_present (cards : list Card) (hv : HandValue) :
  length cards = 5%nat → evaluate5 cards = Some hv →
  ∀ k, k ∈ Kickers hv → k ∈ ranksOnly cards.
Proof.
  intros Hlen Hev k Hk. unfold evaluate5, evaluate5_inplace in Hev.
  simpl in Hev. unfold ranksOnly.
  rewrite <- (sortSlice_perm byRankDesc cards).
  eapply classify_kickers_present; [|done..]. by rewrite sortSlice_length.
Qed.

Lemma evaluate5_kickers_present_witness :
  Nine ∈ ranksOnly [mkCard Hearts Nine "H9"; mkCard Clubs King "CK";
                    mkCard Spades Nine "S9"; mkCard Hearts Two "H2";
                    mkCard Diamonds King "DK"].
Proof.
  apply (evaluate5_kickers_present _ (mkHandValue TwoPair [King; Nine; Two])).
  - reflexivity.
  - reflexivity.
  - simpl. right. left.
Defined.

(** ** The request handlers *)

Lemma ParseCardE_ParseCard s c : ParseCardE s = inr c ↔ ParseCard s = Some c.
Proof.
  unfold ParseCardE, ParseCard.
  destruct s as [|c0 [|c1 [|]]]; try done.
  destruct (parseRank c1); [simpl|done].
  destruct (parseSuit c0); simpl; [|done].
  split; by intros [= <-].
Qed.

Lemma parseCards_Forall2 strs cards :
  parseCards strs = inr cards ↔
  Forall2 (λ s c, ParseCard s = Some c) strs cards.
Proof.
  revert cards. induction strs as [|s strs IH]; intros cards; simpl.
  - split; [intros [= <-]; constructor | by intros ->%Forall2_nil_inv_l].
  - destruct (ParseCardE s) as [err|c] eqn:E.
    + split; [done|]. intros (c & cs & Hc & _ & _)%Forall2_cons_inv_l.
      apply ParseCardE_ParseCard in Hc. congruence.
    + destruct (parseCards strs) as [err|cs].
      * split; [done|]. intros (c' & cs & _ & Hcs & _)%Forall2_cons_inv_l.
        by apply IH in Hcs.
      * split.
        -- intros [= <-]. constructor; [by apply ParseCardE_ParseCard|].
           by apply IH.
        -- intros (c' & cs' & Hc & Hcs & ->)%Forall2_cons_inv_l.
           apply ParseCardE_ParseCard in Hc. apply IH in Hcs. congruence.
Qed.

Lemma parseCards_length strs cards :
  parseCards strs = inr cards → length cards = length strs.
Proof. intros H%parseCards_Forall2. symmetry. by eapply Forall2_length. Qed.

Lemma parseCards_app_length strs1 strs2 cards :
  parseCards (strs1 ++ strs2) = inr cards →
  length cards = (length strs1 + length strs2)%nat.
Proof. intros H%parseCards_length. by rewrite length_app in H. Qed.

(** X17: a list of codes is parsed exactly when each code parses, into the
    cards of the codes in their order; the codes kept in the cards are the
    codes given, and each card is a card of the deck. *)
Theorem parseCards_spec (strs : list string) (cards : list Card) :
  parseCards strs = inr cards ↔
  Forall2 (λ s c, ParseCard s = Some c) strs cards ∧
  Card_Str <$> cards = strs ∧ Forall (λ c, c ∈ FullDeck) cards.
Proof.
  rewrite parseCards_Forall2. split; [|by intros [? _]].
  intros Hall. split; [done|].
  induction Hall as [|s c strs cards Hc _ [IH1 IH2]]; [done|].
  pose proof Hc as (_ & Hstr & _)%ParseCard_inv.
  split; [by rewrite fmap_cons, Hstr, IH1|].
  constructor; [|done].
  apply (FullDeck_elem c). by rewrite Hstr.
Qed.

(** X18: [handleEvaluate] never panics.  It answers with a hand exactly
    when the method is POST, the body decodes, there are two hole codes and
    five community codes, and every code parses; the hand it answers with
    is the best hand of the seven cards parsed. *)
Theorem handleEvaluate_spec (method : string) (body : option evaluateRequest) :
  ∃ reply, handleEvaluate method body = Some reply ∧
    ∀ resp, reply = StatusOK resp ↔
      method = "POST" ∧
      ∃ req cards hv,
        body = Some req ∧
        length (evaluateRequest_Hole req) = 2%nat ∧
        length (evaluateRequest_Community req) = 5%nat ∧
        Forall2 (λ s c, ParseCard s = Some c)
          (evaluateRequest_Hole req ++ evaluateRequest_Community req) cards ∧
        EvaluateBestHand cards = Some hv ∧
        resp = mkEvaluateResponse (categoryToString (Category hv))
                 (ranksToStrings (Kickers hv)).
Proof.
  unfold handleEvaluate.
  case_decide as Hm.
  { eexists. split; [done|]. intros resp. split; [done|]. by intros [? _]. }
  assert (method = "POST") as -> by (by destruct (decide (method = "POST"))).
  destruct body as [req|].
  2: { eexists. split; [done|]. intros resp. split; [done|].
       by intros (_ & ? & ? & ? & ? & _). }
  cbv zeta.
  set (hole := evaluateRequest_Hole req).
  set (community := evaluateRequest_Community req).
  case_decide as Hcount.
  { eexists. split; [done|]. intros resp. split; [done|].
    intros (_ & req' & cards & hv & [= <-] & Hh & Hc & _).
    fold hole community in Hh, Hc. lia. }
  destruct (parseCards (hole ++ community)) as [err|cards] eqn:Hparse.
  { eexists. split; [done|]. intros resp. split; [done|].
    intros (_ & req' & cards & hv & [= <-] & _ & _ & Hall & _).
    apply parseCards_Forall2 in Hall. fold hole community in Hall.
    congruence. }
  pose proof (parseCards_app_length _ _ _ Hparse) as Hlen.
  rewrite decide_False by lia.
  case_decide as Hseven.
  { eexists. split; [done|]. intros resp. split; [done|].
    intros (_ & req' & cards' & hv & [= <-] & Hh & Hc & _).
    fold hole community in Hh, Hc. lia. }
  destruct (EvaluateBestHand_is_Some cards) as [hv Hhv]; [lia|].
  rewrite Hhv. simpl. eexists. split; [done|]. intros resp. split.
  - intros [= <-]. split; [done|]. exists req, cards, hv.
    fold hole community. repeat split; try done; try lia.
    by apply parseCards_Forall2.
  - intros (_ & req' & cards' & hv' & [= <-] & _ & _ & Hall & Hhv' & ->).
    apply parseCards_Forall2 in Hall. fold hole community in Hall.
    congruence.
Qed.

Lemma handleWinner_total method body : is_Some (handleWinner method body).
Proof.
  unfold handleWinner.
  case_decide as Hm; [by eexists|].
  destruct body as [req|]; [|by eexists].
  case_decide as Hcount; [by eexists|].
  destruct (parseCards (winnerRequest_Player1Hole req)) as [err|c1] eqn:E1;
    [by eexists|].
  destruct (parseCards (winnerRequest_Player2Hole req)) as [err|c2] eqn:E2;
    [by eexists|].
  destruct (parseCards (winnerRequest_Community req)) as [err|cc] eqn:Ec;
    [by eexists|].
  apply parseCards_length in E1, E2, Ec.
  destruct (EvaluateBestHand_is_Some (c1 ++ cc)) as [h1 Hh1];
    [rewrite length_app; lia|].
  destruct (EvaluateBestHand_is_Some (c2 ++ cc)) as [h2 Hh2];
    [rewrite length_app; lia|].
  cbv zeta. rewrite Hh1, Hh2. by eexists.
Qed.

(** X19: [handleWinner] never panics, and it is fair to the two players:
    when it names a winner for two holes and a board, it names the same
    winner, from the other side, when the holes are exchanged. *)
Theorem handleWinner_symmetric (method : string)
    (p1 p2 community : list string) :
  (∀ body, is_Some (handleWinner method body)) ∧
  ∀ winner,
    handleWinner method (Some (mkWinnerRequest p1 p2 community))
      = Some (StatusOK winner) →
    handleWinner method (Some (mkWinnerRequest p2 p1 community))
      = Some (StatusOK (otherSide winner)).
Proof.
  split; [apply handleWinner_total|].
  unfold handleWinner. simpl.
  case_decide as Hm; [done|].
  case_decide as Hcount; [done|].
  rewrite decide_False by lia.
  destruct (parseCards p1) as [err|c1] eqn:E1; [done|].
  destruct (parseCards p2) as [err|c2] eqn:E2; [done|].
  destruct (parseCards community) as [err|cc] eqn:Ec; [done|].
  destruct (EvaluateBestHand (c1 ++ cc)) as [h1|]; [simpl|done].
  destruct (EvaluateBestHand (c2 ++ cc)) as [h2|]; [simpl|done].
  intros winner [= <-].
  rewrite (CompareHandValues_antisym h2 h1).
  destruct (Z.ltb_spec 0 (CompareHandValues h1 h2)),
    (Z.ltb_spec (CompareHandValues h1 h2) 0),
    (Z.ltb_spec 0 (- CompareHandValues h1 h2)),
    (Z.ltb_spec (- CompareHandValues h1 h2) 0); try lia; done.
Qed.

Lemma handleWinner_symmetric_witness :
  handleWinner "POST"
    (Some (mkWinnerRequest ["S2"; "S3"] ["HA"; "DA"]
             ["CA"; "H7"; "D9"; "CK"; "S4"]))
  = Some (StatusOK (otherSide "player1")).
Proof.
  apply (handleWinner_symmetric "POST" ["HA"; "DA"] ["S2"; "S3"]
           ["CA"; "H7"; "D9"; "CK"; "S4"]).
  by vm_compute.
Defined.

(** X20: [handleSimulate] never panics, whatever the random sources; it
    refuses a request for zero trials or less; and when it accepts a
    request, the trials run are the trials requested, at least one, so that
    the divisor of the percentages is not zero, and the tallies add up to
    the trials run. *)
Theorem handleSimulate_spec (seeds : nat → Rng) (method : string)
    (body : option simulateRequest) :
  ∃ reply, handleSimulate seeds method body = Some reply ∧
    ∀ res, reply = StatusOK res →
      ∃ req, body = Some req ∧
             1 ≤ simulateRequest_Trials req ∧
             TrialsRun res = simulateRequest_Trials req ∧
             HeroWins res + VillainWins res + Ties res = TrialsRun res.
Proof.
  unfold handleSimulate.
  case_decide as Hm; [by eexists|].
  destruct body as [req|]; [|by eexists].
  cbv zeta.
  case_decide as Hhole; [by eexists|].
  case_decide as Hcomm; [by eexists|].
  case_decide as Hopp; [by eexists|].
  case_decide as Htrials; [by eexists|].
  destruct (parseCards (simulateRequest_Hole req)) as [err|hole] eqn:E1;
    [by eexists|].
  destruct (parseCards (simulateRequest_Community req)) as [err|community]
    eqn:E2; [by eexists|].
  apply parseCards_length in E1, E2.
  destruct (SimulateEquity_run seeds hole community
              (simulateRequest_NumOpponents req) (simulateRequest_Trials req))
    as (results & -> & _ & Hall).
  { lia. }
  { unfold validCommunity. by rewrite E2. }
  { lia. }
  { lia. }
  simpl. eexists. split; [done|]. intros res [= <-].
  exists req. split; [done|]. split; [lia|].
  destruct (merged_spec _ _ _ (mkSimulationResult 0 0 0 0) Hall)
    as [Hruns Htally].
  rewrite trialsFor_sum in Hruns, Htally by lia.
  unfold tallied in Htally. simpl in *. lia.
Qed.

(** X21: the nine categories have nine different names, and every other
    number is named as High Card is. *)
Theorem categoryToString_names (c1 c2 : Z) :
  (0 ≤ c1 ≤ 8 → 0 ≤ c2 ≤ 8 →
   categoryToString c1 = categoryToString c2 → c1 = c2) ∧
  (¬ 0 ≤ c1 ≤ 8 → categoryToString c1 = categoryToString HighCard).
Proof.
  split.
  - intros H1 H2.
    assert (c1 = 0 ∨ c1 = 1 ∨ c1 = 2 ∨ c1 = 3 ∨ c1 = 4 ∨ c1 = 5 ∨ c1 = 6 ∨
            c1 = 7 ∨ c1 = 8) as Hc1 by lia.
    assert (c2 = 0 ∨ c2 = 1 ∨ c2 = 2 ∨ c2 = 3 ∨ c2 = 4 ∨ c2 = 5 ∨ c2 = 6 ∨
            c2 = 7 ∨ c2 = 8) as Hc2 by lia.
    repeat (destruct Hc1 as [-> | Hc1]);
      repeat (destruct Hc2 as [-> | Hc2]); subst;
      vm_compute; congruence.
  - intros Hout. unfold categoryToString, StraightFlush, FourOfAKind,
      FullHouse, Flush, Straight, ThreeOfAKind, TwoPair, OnePair, HighCard.
    repeat case_decide; try lia; done.
Qed.

(** X22: the symbol shown for a rank from Two to Ace is the character that
    parses to that rank; any other rank is shown as a question mark. *)
Theorem rankToString_parseRank (r : Rank) :
  (2 ≤ r ≤ 14 →
   ∃ ch, rankToString r = String ch EmptyString ∧ parseRank ch = Some r) ∧
  (¬ 2 ≤ r ≤ 14 → rankToString r = "?").
Proof.
  split.
  - intros Hr.
    assert (r = 2 ∨ r = 3 ∨ r = 4 ∨ r = 5 ∨ r = 6 ∨ r = 7 ∨ r = 8 ∨ r = 9 ∨
            r = 10 ∨ r = 11 ∨ r = 12 ∨ r = 13 ∨ r = 14) as Hr' by lia.
    repeat (destruct Hr' as [-> | Hr']); subst; by eexists.
  - intros Hout. unfold rankToString, Two, Three, Four, Five, Six, Seven,
      Eight, Nine, Ten, Jack, Queen, King, Ace.
    repeat case_decide; try lia; done.
Qed.

Lemma rankToString_valid r : 2 ≤ r ≤ 14 → rankToString r ≠ "?".
Proof.
  intros Hr.
  assert (r = 2 ∨ r = 3 ∨ r = 4 ∨ r = 5 ∨ r = 6 ∨ r = 7 ∨ r = 8 ∨ r = 9 ∨
          r = 10 ∨ r = 11 ∨ r = 12 ∨ r = 13 ∨ r = 14) as Hr' by lia.
  repeat (destruct Hr' as [-> | Hr']); subst; by vm_compute.
Qed.

Lemma ParseCard_rank_range s c : ParseCard s = Some c → 2 ≤ Card_Rank c ≤ 14.
Proof. by intros (_ & _ & _ & Hr & _)%ParseCard_inv. Qed.

(** X23: in a hand answered by [handleEvaluate] every kicker is shown with
    the symbol of the rank of one of the seven cards sent, never with a
    question mark. *)
Theorem handleEvaluate_kickers_shown (body : evaluateRequest)
    (resp : evaluateResponse) :
  handleEvaluate "POST" (Some body) = Some (StatusOK resp) →
  ∀ shown, shown ∈ evaluateResponse_Kickers resp →
    shown ≠ "?" ∧
    ∃ code c, code ∈ evaluateRequest_Hole body ++ evaluateRequest_Community body ∧
              ParseCard code = Some c ∧ shown = rankToString (Card_Rank c).
Proof.
  unfold handleEvaluate. rewrite decide_False by (intros Hn; by apply Hn).
  cbv zeta.
  set (codes := evaluateRequest_Hole body ++ evaluateRequest_Community body).
  case_decide; [done|].
  destruct (parseCards codes) as [err|cards] eqn:Hparse; [done|].
  case_decide; [done|]. case_decide as Hseven; [done|].
  assert (length cards = 7%nat) as Hlen
    by (destruct (decide (length cards = 7%nat)); [done | by destruct Hseven]).
  destruct (EvaluateBestHand cards) as [hv|] eqn:Hbest; [simpl|done].
  intros [= <-] shown. simpl. unfold ranksToStrings.
  intros (k & -> & Hk)%list_elem_of_fmap.
  (* the value is the value of five of the seven cards *)
  rewrite EvaluateBestHand_combs in Hbest by done. unfold bestOf in Hbest.
  destruct (mapM id (evaluate5 <$> combs 5 cards)) as [hvs|] eqn:E;
    [simpl in Hbest|done].
  destruct hvs as [|h t]; [done|]. injection Hbest as <-.
  apply mapM_Some_1, Forall2_fmap_l in E.
  destruct (foldl_better_max h t) as [Hin _].
  apply list_elem_of_lookup in Hin as [i Hi].
  destruct (Forall2_lookup_r _ _ _ _ _ E Hi) as (hand & Hhand & Hev).
  apply list_elem_of_lookup_2, combs_sublist in Hhand as [Hsub Hl].
  simpl in Hev.
  assert (k ∈ ranksOnly hand) as (c & -> & Hc)%list_elem_of_fmap.
  { unfold evaluate5, evaluate5_inplace in Hev. simpl in Hev.
    unfold ranksOnly. rewrite <- (sortSlice_perm byRankDesc hand).
    eapply classify_kickers_present; [|done..]. by rewrite sortSlice_length. }
  assert (c ∈ cards) as Hcc by (by apply (sublist_subseteq _ _ Hsub)).
  apply parseCards_Forall2 in Hparse.
  apply list_elem_of_lookup in Hcc as [j Hj].
  destruct (Forall2_lookup_r _ _ _ _ _ Hparse Hj) as (code & Hcode & Hpc).
  split.
  - apply rankToString_valid. by eapply ParseCard_rank_range.
  - exists code, c. split; [by eapply list_elem_of_lookup_2 | done].
Qed.

Lemma handleEvaluate_kickers_shown_witness :
  "K" ≠ "?" ∧
  ∃ code c, code ∈ ["H2"; "DA"] ++ ["C7"; "S2"; "HK"; "H6"; "CA"] ∧
            ParseCard code = Some c ∧ "K" = rankToString (Card_Rank c).
Proof.
  apply (handleEvaluate_kickers_shown
           (mkEvaluateRequest ["H2"; "DA"] ["C7"; "S2"; "HK"; "H6"; "CA"])
           (mkEvaluateResponse "Two Pair" ["A"; "2"; "K"])).
  - by vm_compute.
  - simpl. right. right. left.
Defined.

(** ** Shares of the workers, and more opponents *)

(** X24: for one trial or more there are between one and four workers, no
    more than trials; every worker is given at least one trial, and worker 0
    is given what the others are given plus a remainder smaller than the
    number of workers. *)
Theorem worker_shares (trials : Z) (w : nat) :
  1 ≤ trials →
  1 ≤ workerCount trials ≤ 4 ∧ workerCount trials ≤ trials ∧
  1 ≤ trialsFor trials w ∧
  trialsFor trials w ≤ trialsFor trials 0 < trialsFor trials w + workerCount trials.
Proof.
  intros Htrials. unfold trialsFor, workerCount.
  destruct (Z.ltb_spec trials 4).
  - assert (trials = 1 ∨ trials = 2 ∨ trials = 3) as [-> | [-> | ->]] by lia;
      destruct w; vm_compute; repeat split; discriminate.
  - pose proof (Z.quot_rem' trials 4) as Hqr.
    pose proof (Z.rem_bound_pos trials 4 ltac:(lia) ltac:(lia)) as Hr.
    set (q := trials ÷ 4) in *. set (r := trials `rem` 4) in *.
    clearbody q r. rewrite (decide_True (P := 0%nat = 0%nat)) by done.
    case_decide; lia.
Qed.

Lemma worker_shares_witness :
  1 ≤ workerCount 10 ≤ 4 ∧ workerCount 10 ≤ 10 ∧
  1 ≤ trialsFor 10 2 ∧
  trialsFor 10 2 ≤ trialsFor 10 0 < trialsFor 10 2 + workerCount 10.
Proof. apply worker_shares. lia. Defined.

Lemma existsb_take {A : Type} (f : A → bool) (l : list A) (n : nat) :
  existsb f l = false → existsb f (take n l) = false.
Proof.
  revert n. induction l as [|x l IH]; intros [|n]; simpl; try done.
  intros [-> Hl]%orb_false_iff. simpl. by apply IH.
Qed.

(** X25: more opponents never help hero.  With the same random source and
    the same cards, a trial that hero wins against a number of opponents is
    also won against any smaller number of them. *)
Theorem simulateOnce_fewer_opponents (rng : Rng)
    (heroHole community deck : list Card) (fewer more : Z) (rng' : Rng) :
  length heroHole = 2%nat →
  (length community ≤ 5)%nat →
  (5 - length community ≤ length deck)%nat →
  fewer ≤ more →
  simulateOnce rng heroHole community deck more
    = Some ((true, false, false), rng') →
  simulateOnce rng heroHole community deck fewer
    = Some ((true, false, false), rng').
Proof.
  intros Hhero Hcomm Hdeck Hle.
  destruct (simulateOnce_spec rng heroHole community deck more
              Hhero Hcomm Hdeck) as (hb & k' & opps' & Hh & Hk' & Ho' & ->).
  destruct (simulateOnce_spec rng heroHole community deck fewer
              Hhero Hcomm Hdeck) as (hb2 & k & opps & Hh2 & Hk & Ho & ->).
  assert (hb2 = hb) as -> by congruence.
  intros [= Hout <-]. f_equal. f_equal.
  assert (k ≤ k')%nat as Hkk by (unfold opponentsDealt in *; lia).
  assert (opps = take k opps') as ->.
  { replace k' with (k + (k' - k))%nat in Ho' by lia.
    rewrite seq_app in Ho'.
    apply Forall2_app_inv_l in Ho' as (o1 & o2 & Ho1 & _ & ->).
    assert (o1 = opps) as ->.
    { eapply Forall2_functional; [|exact Ho1|exact Ho].
      unfold oppBestAt. congruence. }
    apply Forall2_length in Ho. rewrite length_seq in Ho.
    by rewrite Ho, take_app_length. }
  unfold trialOutcome in *.
  destruct (existsb (beatenBy hb) opps') eqn:Hb; [done|].
  destruct (existsb (tiedWith hb) opps') eqn:Ht; [done|].
  by rewrite !existsb_take.
Qed.

Lemma simulateOnce_fewer_opponents_witness :
  let hero := [mkCard Spades Two "S2"; mkCard Hearts Ace "HA"] in
  simulateOnce [] hero knownBoard (remainingDeck hero knownBoard) 1
  = Some ((true, false, false), []).
Proof.
  intros hero.
  apply (simulateOnce_fewer_opponents [] hero knownBoard
           (remainingDeck hero knownBoard) 1 2).
  - reflexivity.
  - simpl. lia.
  - vm_compute. lia.
  - lia.
  - by vm_compute.
Defined.
